(** * AssanPOS patch scripts: a shallow embedding and its properties

    The repository holds four one-shot Python scripts that rewrite a source
    file in place:

    - [fix_translate_block.py]: splice a new [translate] function between
      two textual markers of [lib/translations.ts];
    - [temp.py]: the abandoned draft of the same rewrite;
    - [patch_translate.py]: replace an exact literal block, guarded by a
      presence test;
    - [fix_vendor.py]: rebuild the import header of a [.tsx] file.

    The block that the first script installs contains a TypeScript helper,
    [fixMojibake]; it is embedded here as well.

    Python [str] values are sequences of Unicode code points and are modelled
    as [list N]; indices are [nat].  A script is a state transformer over the
    one file it touches and the console, which may end in an uncaught
    exception. *)

From Stdlib Require Import List NArith ZArith Arith Bool Lia.
From Stdlib Require String Ascii.
Import ListNotations String.StringSyntax.
Delimit Scope string_scope with string.

Set Implicit Arguments.

(** ** Python strings and lists *)

Module Py.

Definition char := N.
Definition str := list char.

(** A source literal whose characters are all ASCII. *)
Definition lit (s : String.string) : str :=
  map Ascii.N_of_ascii (String.list_ascii_of_string s).
Arguments lit s%_string.

Definition str_eqb (a b : str) : bool :=
  if list_eq_dec N.eq_dec a b then true else false.

(** [text[a:b]] for [0 <= a], [0 <= b]: out-of-range bounds are clamped. *)
Definition slice (A : Type) (text : list A) (a b : nat) : list A :=
  firstn (b - a) (skipn a text).

(** [text.startswith(sub)] *)
Fixpoint startswith (text sub : str) {struct sub} : bool :=
  match sub, text with
  | [], _ => true
  | _ :: _, [] => false
  | c :: sub', d :: text' => N.eqb c d && startswith text' sub'
  end.

(** The scan of [str.find]: [text] is the part of the string that starts at
    absolute position [pos]. *)
Fixpoint find_from (sub text : str) (pos : nat) : option nat :=
  if startswith text sub then Some pos
  else match text with
       | [] => None
       | _ :: text' => find_from sub text' (S pos)
       end.

(** [text.find(sub, start)], with [None] for Python's [-1]. *)
Definition find (text sub : str) (start : nat) : option nat :=
  if start <=? length text then find_from sub (skipn start text) start
  else None.

(** [sub in text] *)
Definition contains (text sub : str) : bool :=
  match find text sub 0 with Some _ => true | None => false end.

(** [text.replace(old, new)] for a non-empty [old]: the leftmost occurrence
    is replaced and the scan resumes after it.  [skip] counts the characters
    of a matched occurrence that are still to be dropped. *)
Fixpoint replace_scan (old new text : str) (skip : nat) : str :=
  match text with
  | [] => []
  | c :: text' =>
      match skip with
      | S k => replace_scan old new text' k
      | O =>
          if startswith text old
          then new ++ replace_scan old new text' (length old - 1)
          else c :: replace_scan old new text' 0
      end
  end.

(** With an empty [old], Python inserts [new] before every character and at
    the end. *)
Fixpoint replace_empty (new text : str) : str :=
  match text with
  | [] => new
  | c :: text' => new ++ c :: replace_empty new text'
  end.

Definition replace (text old new : str) : str :=
  match old with
  | [] => replace_empty new text
  | _ :: _ => replace_scan old new text 0
  end.

(** [sep.join(parts)] *)
Fixpoint join (sep : str) (parts : list str) : str :=
  match parts with
  | [] => []
  | [p] => p
  | p :: rest => p ++ sep ++ join sep rest
  end.

(** [text.split(sep)] for a one-character separator: [acc] is the field
    being read, reversed. *)
Fixpoint split_acc (sep : char) (text : str) (acc : str) : list str :=
  match text with
  | [] => [rev acc]
  | c :: text' =>
      if N.eqb c sep then rev acc :: split_acc sep text' []
      else split_acc sep text' (c :: acc)
  end.

Definition split (text : str) (sep : char) : list str := split_acc sep text [].

(** The characters at which [str.splitlines] breaks a line. *)
Definition is_linebreak (c : char) : bool :=
  (N.eqb c 10 || N.eqb c 11 || N.eqb c 12 || N.eqb c 13
   || N.eqb c 28 || N.eqb c 29 || N.eqb c 30 || N.eqb c 133
   || N.eqb c 8232 || N.eqb c 8233)%bool.

(** [text.splitlines()]: a carriage return directly followed by a line feed
    is one break, and no empty last line is produced.  [after_cr] records
    that the previous character was a carriage return which already closed a
    line. *)
Fixpoint splitlines_acc (text : str) (acc : str) (after_cr : bool) : list str :=
  match text with
  | [] => match acc with [] => [] | _ :: _ => [rev acc] end
  | c :: text' =>
      if after_cr && N.eqb c 10 then splitlines_acc text' [] false
      else if is_linebreak c
           then rev acc :: splitlines_acc text' [] (N.eqb c 13)
           else splitlines_acc text' (c :: acc) false
  end.

Definition splitlines (text : str) : list str := splitlines_acc text [] false.

(** [lines.index(x)], with [None] for the [ValueError]. *)
Fixpoint list_index (lines : list str) (x : str) : option nat :=
  match lines with
  | [] => None
  | l :: lines' =>
      if str_eqb l x then Some 0
      else match list_index lines' x with
           | Some i => Some (S i)
           | None => None
           end
  end.

(** *** Occurrences, stated without reference to the search functions *)

(** [sub] occurs in [text] at position [i]: [text[i:i+len(sub)] == sub]. *)
Definition occurs_at (sub text : str) (i : nat) : Prop :=
  i + length sub <= length text /\ slice text i (i + length sub) = sub.

(** [i] is the first position at or after [from] where [sub] occurs. *)
Definition first_occurrence (sub text : str) (from i : nat) : Prop :=
  from <= i /\ occurs_at sub text i /\
  forall j, from <= j < i -> ~ occurs_at sub text j.

(** [sub] does not occur at or after [from]. *)
Definition absent_from (sub text : str) (from : nat) : Prop :=
  forall j, from <= j -> ~ occurs_at sub text j.

(** [out] is [text] with every occurrence of [old] replaced by [new], the
    occurrences being taken from the left and not overlapping. *)
Inductive replaced_all (old new : str) : str -> str -> Prop :=
| replaced_none : forall text,
    absent_from old text 0 -> replaced_all old new text text
| replaced_first : forall text i out,
    first_occurrence old text 0 i ->
    replaced_all old new (skipn (i + length old) text) out ->
    replaced_all old new text (firstn i text ++ new ++ out).

Definition str_eq_dec : forall a b : str, {a = b} + {a <> b} :=
  list_eq_dec N.eq_dec.

(** The number of lines of [lines] equal to [x]. *)
Definition line_count (lines : list str) (x : str) : nat :=
  count_occ str_eq_dec lines x.

(** [i] is the first index of the line [x] in [lines]. *)
Definition first_line (lines : list str) (x : str) (i : nat) : Prop :=
  nth_error lines i = Some x /\
  forall k, k < i -> nth_error lines k <> Some x.

(** A line without line breaks, as [splitlines] produces them. *)
Definition unbroken (line : str) : Prop :=
  forallb (fun c => negb (is_linebreak c)) line = true.

(** What reading back a joined line list gives: an empty last line is not
    seen. *)
Fixpoint without_empty_last (lines : list str) : list str :=
  match lines with
  | [] => []
  | [l] => match l with [] => [] | _ :: _ => [l] end
  | l :: rest => l :: without_empty_last rest
  end.

(** No end of [a] that is shorter than [a] and not empty is a beginning of
    [b]. *)
Definition no_end_begins (a b : str) : bool :=
  forallb (fun m => negb (startswith b (skipn m a))) (seq 1 (length a - 1)).

(** [sub] neither occurs in [block] nor begins in it and runs past its
    end. *)
Definition keeps_out (block sub : str) : bool :=
  forallb (fun k => negb (startswith (skipn k block) sub)
                    && negb (startswith sub (skipn k block)))
          (seq 0 (length block)).

(** [i] and [j] are the first two indices of the line [x] in [lines]. *)
Definition first_two_lines (lines : list str) (x : str) (i j : nat) : Prop :=
  first_line lines x i /\ i < j /\ nth_error lines j = Some x /\
  forall k, i < k < j -> nth_error lines k <> Some x.

End Py.

(** ** Scripts

    Each script reads and writes one hard-coded path, prints to the console
    and stops at the first uncaught exception.  The world keeps the text of
    that file as [read_text] returns it and as [write_text] receives it, the
    lines printed so far, and the number of writes performed. *)

Module Run.
Import Py.

Inductive exn : Type := ValueError.

Inductive outcome (A : Type) : Type :=
| Returned (a : A)
| Raised (e : exn).
Arguments Raised {A} e.

Record world : Type := World {
  file : str;
  console : list str;
  writes : nat
}.

Definition script (A : Type) : Type := world -> outcome A * world.

Definition ret (A : Type) (a : A) : script A := fun w => (Returned a, w).

Definition bind (A B : Type) (c : script A) (k : A -> script B) : script B :=
  fun w =>
    match c w with
    | (Returned a, w') => k a w'
    | (Raised e, w') => (Raised e, w')
    end.

Definition raise (A : Type) (e : exn) : script A := fun w => (Raised e, w).
Arguments raise {A} e.

(** [p.read_text(encoding='utf-8')] *)
Definition read_text : script str := fun w => (Returned (file w), w).

(** [p.write_text(text, encoding='utf-8')] *)
Definition write_text (text : str) : script unit :=
  fun w => (Returned tt, World text (console w) (S (writes w))).

(** [print(line)] *)
Definition print (line : str) : script unit :=
  fun w => (Returned tt, World (file w) (console w ++ [line]) (writes w)).

(** [text.index(sub, start)]: [str.find] that raises [ValueError]. *)
Definition str_index (text sub : str) (start : nat) : script nat :=
  match find text sub start with
  | Some i => ret i
  | None => raise ValueError
  end.

(** [lines.index(x)] *)
Definition lines_index (lines : list str) (x : str) : script nat :=
  match list_index lines x with
  | Some i => ret i
  | None => raise ValueError
  end.

(** The world after [n] invocations of a script, one after the other,
    whatever the outcome of each. *)
Fixpoint rerun (A : Type) (c : script A) (n : nat) (w : world) : world :=
  match n with
  | O => w
  | S k => rerun c k (snd (c w))
  end.

End Run.

Declare Scope script_scope.
Delimit Scope script_scope with script.
Notation "x <- c ;; k" := (Run.bind c (fun x => k))
  (at level 61, c at next level, right associativity) : script_scope.
Notation "c ;; k" := (Run.bind c (fun _ => k))
  (at level 61, right associativity) : script_scope.

(** ** fix_translate_block.py *)

Module FixTranslateBlock.
Import Py Run.
Local Open Scope script_scope.

Definition new_block : str :=
  lit "export function translate(
  language: LanguageCode,
  englishPhrase: string,
  fallbackUrdu?: string
): string {
  const fixMojibake = (value: string) => {
    try {
      const decoded = Buffer.from(value, 'binary').toString('utf8');
      const hasArabic = /["
  ++ [1536%N]
  ++ lit "-"
  ++ [1791%N]
  ++ lit "]/.test(decoded);
      if (hasArabic) {
        return decoded;
      }
    } catch {
      // ignore decode issues
    }
    return value;
  };

  const entry = TRANSLATION_DICTIONARY[englishPhrase];

  if (entry) {
    if (language === 'english') {
      return entry[0];
    }
    if (language === 'urdu') {
      return fixMojibake(entry[1]);
    }
    return entry[0];
  }

  if (language === 'urdu') {
    return fixMojibake(fallbackUrdu ?? englishPhrase);
  }

  return englishPhrase;
}
".

(** The body of the script, with its three literals as parameters. *)
Definition rewrite_block (start_marker end_marker block : str) : script unit :=
  text <- read_text ;;
  start <- str_index text start_marker 0 ;;
  end_ <- str_index text end_marker start ;;
  let text := firstn start text ++ block ++ skipn end_ text in
  write_text text ;;
  print (lit "translate block rewritten").

Definition start_marker : str := lit "export function translate".
Definition end_marker : str := lit "export function registerTranslation".

Definition main : script unit := rewrite_block start_marker end_marker new_block.

End FixTranslateBlock.

(** ** temp.py *)

Module Temp.
Import Py Run.
Local Open Scope script_scope.

Definition old : str :=
  lit "export function translate(

  language: LanguageCode,

  englishPhrase: string,

  fallbackUrdu?: string

): string {

  const entry = TRANSLATION_DICTIONARY[englishPhrase];

  if (entry) {
    if (language === 'english') {
      return entry[0];
    }
    if (language === 'urdu') {
      return entry[1];
    }
    return entry[0];
  }

  if (language === 'urdu') {
    return fallbackUrdu ?? englishPhrase;
  }

  return englishPhrase;

}
".

Definition new : str :=
  lit "export function translate(
  language: LanguageCode,
  englishPhrase: string,
  fallbackUrdu?: string
): string {
  const fixMojibake = (value: string) => {
    try {
      const decoded = Buffer.from(value, 'binary').toString('utf8');
      const hasArabic = /["
  ++ [1536%N]
  ++ lit "-"
  ++ [1791%N]
  ++ lit "]/.test(decoded);
      if (hasArabic) {
        return decoded;
      }
    } catch:
      pass
    return value;
  }

  const entry = TRANSLATION_DICTIONARY[englishPhrase];

  if (entry) {
    if (language == 'english'):
      return entry[0]
    if (language == 'urdu'):
      return fixMojibake(entry[1])
    return entry[0]
  }

  if (language == 'urdu'):
    return fixMojibake(fallbackUrdu or englishPhrase)

  return englishPhrase

}
".

Definition main : script unit :=
  t <- read_text ;;
  start <- str_index t (lit "export function translate") 0 ;;
  end_ <- str_index t (lit "export function registerTranslation") start ;;
  let body := slice t start end_ in
  print (lit "please rewrite manually").

End Temp.

(** ** patch_translate.py *)

Module PatchTranslate.
Import Py Run.
Local Open Scope script_scope.

Definition old : str :=
  lit "export function translate(

  language: LanguageCode,

  englishPhrase: string,

  fallbackUrdu?: string

): string {

  const entry = TRANSLATION_DICTIONARY[englishPhrase];

  if (entry) {
    if (language === 'english') {
      return entry[0];
    }
    if (language === 'urdu') {
      return entry[1];
    }
    return entry[0];
  }

  if (language === 'urdu') {
    return fallbackUrdu ?? englishPhrase;
  }

  return englishPhrase;

}
".

Definition new : str :=
  lit "export function translate(
  language: LanguageCode,
  englishPhrase: string,
  fallbackUrdu?: string
): string {
  const fixMojibake = (value: string) => {
    try {
      const decoded = Buffer.from(value, 'binary').toString('utf8')
      const hasArabic = /["
  ++ [1536%N]
  ++ lit "-"
  ++ [1791%N]
  ++ lit "]/.test(decoded)
      if (hasArabic):
        return decoded
    except Exception:
      pass
    return value
  }

  const entry = TRANSLATION_DICTIONARY[englishPhrase]

  if (entry):
    if (language == 'english'):
      return entry[0]
    if (language == 'urdu'):
      return fixMojibake(entry[1])
    return entry[0]

  if (language == 'urdu'):
    return fixMojibake(fallbackUrdu or englishPhrase)

  return englishPhrase

}
".

(** The body of the script, with its two literals as parameters. *)
Definition patch (old new : str) : script unit :=
  text <- read_text ;;
  if negb (contains text old) then
    print (lit "old block not found")
  else
    write_text (replace text old new) ;;
    print (lit "replaced").

Definition main : script unit := patch old new.

End PatchTranslate.

(** ** fix_vendor.py *)

Module FixVendor.
Import Py Run.
Local Open Scope script_scope.

Definition marker : str := lit "import {".

Definition new_header : list str :=
  split (lit "import React, { useEffect, useMemo, useState } from 'react';
import * as ImagePicker from 'expo-image-picker';
import { Alert, KeyboardAvoidingView, Modal, Platform, ScrollView, StyleSheet, Text, TextInput, TouchableOpacity, View, Image } from 'react-native';
") 10%N.

(** The literal that [new_header] splits. *)
Definition header_text : str :=
  lit "import React, { useEffect, useMemo, useState } from 'react';
import * as ImagePicker from 'expo-image-picker';
import { Alert, KeyboardAvoidingView, Modal, Platform, ScrollView, StyleSheet, Text, TextInput, TouchableOpacity, View, Image } from 'react-native';
".

(** From the line list to [new_lines], with the marker and the header as
    parameters. *)
Definition splice_header (marker : str) (header lines : list str)
  : script (list str) :=
  second_import <- lines_index lines marker ;;
  let rest := skipn (second_import + 1) lines in
  let new_lines := header ++ rest in
  ret new_lines.

Definition main : script unit :=
  text <- read_text ;;
  let lines := splitlines text in
  new_lines <- splice_header marker new_header lines ;;
  write_text (join [10%N] new_lines) ;;
  print (lit "rewrote header").

End FixVendor.

(** ** lib/translations.ts: the helper installed by the rewrite

    [fixMojibake] is the TypeScript function carried by
    [FixTranslateBlock.new_block].  A JavaScript string is a sequence of
    UTF-16 code units.  [Buffer] is Node's class, which the [buffer] package
    provides elsewhere: its ['binary'] encoding is latin1, which keeps the
    low eight bits of every code unit, and [toString('utf8')] substitutes
    U+FFFD for what is not well-formed; neither throws. *)

Module Translations.
Local Open Scope N_scope.

Definition jsstring := list N.
Definition bytes := list N.

Inductive completion (A : Type) : Type :=
| Normal (a : A)
| Throw.
Arguments Throw {A}.

(** [Buffer.from(value, 'binary')] *)
Definition Buffer_from_binary (value : jsstring) : completion bytes :=
  Normal (map (fun unit => N.land unit 0xFF) value).

(** The state of the UTF-8 decoder between two bytes: the bits collected so
    far, the continuation bytes still expected, and the range allowed for
    the next one. *)
Record decoder : Type := Decoder {
  code_point : N;
  bytes_needed : nat;
  lower : N;
  upper : N
}.

Definition idle : decoder := Decoder 0 0 0x80 0xBF.

(** A byte read while no sequence is pending. *)
Definition lead (b : N) : list N * decoder :=
  if b <=? 0x7F then ([b], idle)
  else if (0xC2 <=? b) && (b <=? 0xDF) then
    ([], Decoder (N.land b 0x1F) 1 0x80 0xBF)
  else if (0xE0 <=? b) && (b <=? 0xEF) then
    ([], Decoder (N.land b 0x0F) 2
                 (if b =? 0xE0 then 0xA0 else 0x80)
                 (if b =? 0xED then 0x9F else 0xBF))
  else if (0xF0 <=? b) && (b <=? 0xF4) then
    ([], Decoder (N.land b 0x07) 3
                 (if b =? 0xF0 then 0x90 else 0x80)
                 (if b =? 0xF4 then 0x8F else 0xBF))
  else ([0xFFFD], idle).

(** The decoder proper: a byte that cannot continue the pending sequence
    ends it with U+FFFD and is read again as a lead byte; so does the end of
    the input. *)
Fixpoint utf8_decode (d : decoder) (buf : bytes) : list N :=
  match buf with
  | [] => match bytes_needed d with O => [] | S _ => [0xFFFD] end
  | b :: buf' =>
      match bytes_needed d with
      | O => let (out, d') := lead b in out ++ utf8_decode d' buf'
      | S n =>
          if (lower d <=? b) && (b <=? upper d) then
            let cp := N.lor (N.shiftl (code_point d) 6) (N.land b 0x3F) in
            match n with
            | O => cp :: utf8_decode idle buf'
            | S _ => utf8_decode (Decoder cp n 0x80 0xBF) buf'
            end
          else
            let (out, d') := lead b in
            0xFFFD :: out ++ utf8_decode d' buf'
      end
  end.

(** The code units of one decoded code point. *)
Definition utf16_units (cp : N) : jsstring :=
  if cp <? 0x10000 then [cp]
  else [0xD800 + N.shiftr (cp - 0x10000) 10;
        0xDC00 + N.land (cp - 0x10000) 0x3FF].

(** [buf.toString('utf8')] *)
Definition toString_utf8 (buf : bytes) : completion jsstring :=
  Normal (flat_map utf16_units (utf8_decode idle buf)).

(** The regular expression test for a code unit in U+0600..U+06FF. *)
Definition hasArabic (decoded : jsstring) : bool :=
  existsb (fun unit => (0x0600 <=? unit) && (unit <=? 0x06FF)) decoded.

(** The [try] block: [Normal (Some decoded)] is its [return decoded],
    [Normal None] falls through to the statement after it. *)
Definition try_block (value : jsstring) : completion (option jsstring) :=
  match Buffer_from_binary value with
  | Throw => Throw
  | Normal buf =>
      match toString_utf8 buf with
      | Throw => Throw
      | Normal decoded =>
          if hasArabic decoded then Normal (Some decoded) else Normal None
      end
  end.

Definition fixMojibake (value : jsstring) : jsstring :=
  match try_block value with
  | Normal (Some decoded) => decoded
  | Normal None => value
  | Throw => value
  end.

(** The dictionary is declared elsewhere in [lib/translations.ts]: it is a
    parameter here, a lookup that gives the English and the Urdu text of a
    phrase, [entry[0]] and [entry[1]].  An omitted [fallbackUrdu] is
    [None]. *)
Definition dictionary := jsstring -> option (jsstring * jsstring).

Definition is_language (language : jsstring) (name : String.string) : bool :=
  Py.str_eqb language (Py.lit name).
Arguments is_language language name%_string.

(** [translate] as [fix_translate_block.py] installs it. *)
Definition translate (TRANSLATION_DICTIONARY : dictionary)
    (language englishPhrase : jsstring) (fallbackUrdu : option jsstring)
  : jsstring :=
  let entry := TRANSLATION_DICTIONARY englishPhrase in
  match entry with
  | Some entry =>
      if is_language language "english" then fst entry
      else if is_language language "urdu" then fixMojibake (snd entry)
      else fst entry
  | None =>
      if is_language language "urdu" then
        fixMojibake (match fallbackUrdu with
                     | Some text => text
                     | None => englishPhrase
                     end)
      else englishPhrase
  end.

(** [translate] as the block that [patch_translate.py] looks for has it. *)
Definition translate_before (TRANSLATION_DICTIONARY : dictionary)
    (language englishPhrase : jsstring) (fallbackUrdu : option jsstring)
  : jsstring :=
  let entry := TRANSLATION_DICTIONARY englishPhrase in
  match entry with
  | Some entry =>
      if is_language language "english" then fst entry
      else if is_language language "urdu" then snd entry
      else fst entry
  | None =>
      if is_language language "urdu" then
        match fallbackUrdu with
        | Some text => text
        | None => englishPhrase
        end
      else englishPhrase
  end.

(** The bytes that begin the UTF-8 sequences of U+0600..U+06FF. *)
Definition arabic_lead (b : N) : bool := (0xD8 <=? b) && (b <=? 0xDB).

(** A string none of whose code units has such a low byte. *)
Definition plain (value : jsstring) : bool :=
  forallb (fun unit => negb (arabic_lead (unit mod 256))) value.

(** A code point that is not in U+0600..U+06FF. *)
Definition outside_arabic (cp : N) : Prop := cp < 0x0600 \/ 0x06FF < cp.

(** A decoder state from which no character of U+0600..U+06FF can come. *)
Definition calm (d : decoder) : Prop :=
  match bytes_needed d with
  | O => True
  | S O => code_point d < 0x18 \/ 0x1B < code_point d
  | S (S O) =>
      forall b, lower d <= b <= upper d -> 0x1B < code_point d * 64 + b mod 64
  | S (S (S _)) =>
      forall b, lower d <= b <= upper d -> 1 <= code_point d * 64 + b mod 64
  end.

(** The UTF-8 encoding form of a code point, which says what the
    well-formed byte sequences are. *)
Definition utf8_encode (cp : N) : bytes :=
  if cp <? 0x80 then [cp]
  else if cp <? 0x800 then [0xC0 + cp / 64; 0x80 + cp mod 64]
  else if cp <? 0x10000 then
    [0xE0 + cp / 4096; 0x80 + (cp / 64) mod 64; 0x80 + cp mod 64]
  else
    [0xF0 + cp / 262144; 0x80 + (cp / 4096) mod 64;
     0x80 + (cp / 64) mod 64; 0x80 + cp mod 64].

(** The code points that text is made of: all but the surrogates. *)
Definition is_scalar (cp : N) : bool :=
  (cp <? 0xD800) || ((0xE000 <=? cp) && (cp <=? 0x10FFFF)).

End Translations.

(** * Properties *)

(** ** The search functions find first occurrences *)

Module PyFacts.
Import Py.

Lemma startswith_spec (sub text : str) :
  startswith text sub = true <->
  length sub <= length text /\ firstn (length sub) text = sub.
Proof.
  revert text; induction sub as [|c sub IH]; intros text; simpl.
  - split; [intros _; split; [lia | reflexivity] | reflexivity].
  - destruct text as [|d text]; simpl.
    + split; [discriminate | intros [H _]; lia].
    + rewrite andb_true_iff, N.eqb_eq, IH. split.
      * intros [-> [Hl Hf]]. split; [lia | now rewrite Hf].
      * intros [Hl Hf]. injection Hf as -> Hf. repeat split; [lia | exact Hf].
Qed.

Lemma occurs_at_startswith (sub text : str) (i : nat) :
  occurs_at sub text i <->
  i <= length text /\ startswith (skipn i text) sub = true.
Proof.
  unfold occurs_at, slice. rewrite startswith_spec, length_skipn.
  replace (i + length sub - i) with (length sub) by lia.
  split; intros H; repeat split; try tauto; lia.
Qed.

Lemma find_from_spec (sub text : str) (pos : nat) :
  match find_from sub text pos with
  | Some i =>
      exists k, i = pos + k /\ k <= length text /\
                startswith (skipn k text) sub = true /\
                forall j, j < k -> startswith (skipn j text) sub = false
  | None => forall j, startswith (skipn j text) sub = false
  end.
Proof.
  revert pos; induction text as [|c text IH]; intros pos.
  - cbn [find_from]. destruct (startswith [] sub) eqn:E.
    + exists 0. repeat split; [lia | simpl; lia | exact E | intros j Hj; lia].
    + intros j. now rewrite skipn_nil.
  - cbn [find_from]. destruct (startswith (c :: text) sub) eqn:E.
    + exists 0. repeat split; [lia | simpl; lia | exact E | intros j Hj; lia].
    + specialize (IH (S pos)). destruct (find_from sub text (S pos)) as [i|].
      * destruct IH as (k & -> & Hk & Hs & Hlt).
        exists (S k). repeat split; [lia | simpl; lia | exact Hs |].
        intros [|j] Hj; [exact E | apply Hlt; lia].
      * intros [|j]; [exact E | apply IH].
Qed.

Lemma find_spec (text sub : str) (start : nat) :
  match find text sub start with
  | Some i => first_occurrence sub text start i
  | None => absent_from sub text start
  end.
Proof.
  unfold find. destruct (start <=? length text) eqn:Hs.
  - apply Nat.leb_le in Hs.
    pose proof (find_from_spec sub (skipn start text) start) as H.
    destruct (find_from sub (skipn start text) start) as [i|].
    + destruct H as (k & -> & Hk & Hm & Hlt).
      rewrite length_skipn in Hk. rewrite skipn_skipn in Hm.
      split; [|split].
      * lia.
      * apply occurs_at_startswith. split; [lia|].
        now replace (start + k) with (k + start) by lia.
      * intros j Hj Hocc. apply occurs_at_startswith in Hocc.
        destruct Hocc as [_ Hocc].
        specialize (Hlt (j - start) ltac:(lia)).
        rewrite skipn_skipn in Hlt.
        replace (j - start + start) with j in Hlt by lia. congruence.
    + intros j Hj Hocc. apply occurs_at_startswith in Hocc.
      destruct Hocc as [_ Hocc].
      specialize (H (j - start)). rewrite skipn_skipn in H.
      replace (j - start + start) with j in H by lia. congruence.
  - apply Nat.leb_gt in Hs. intros j Hj [Hb _]. lia.
Qed.

Lemma first_occurrence_unique (sub text : str) (from i j : nat) :
  first_occurrence sub text from i -> first_occurrence sub text from j -> i = j.
Proof.
  intros (Hi & Oi & Li) (Hj & Oj & Lj).
  destruct (Nat.lt_trichotomy i j) as [H|[H|H]]; [|exact H|].
  - exfalso. apply (Lj i); [lia | exact Oi].
  - exfalso. apply (Li j); [lia | exact Oj].
Qed.

Lemma find_Some_iff (text sub : str) (start i : nat) :
  find text sub start = Some i <-> first_occurrence sub text start i.
Proof.
  pose proof (find_spec text sub start) as H. split.
  - intros E. now rewrite E in H.
  - intros F. destruct (find text sub start) as [k|].
    + f_equal. eapply first_occurrence_unique; eassumption.
    + destruct F as (Hi & Oi & _). exfalso. exact (H i Hi Oi).
Qed.

Lemma find_None_iff (text sub : str) (start : nat) :
  find text sub start = None <-> absent_from sub text start.
Proof.
  pose proof (find_spec text sub start) as H. split.
  - intros E. now rewrite E in H.
  - intros A. destruct (find text sub start) as [k|]; [|reflexivity].
    destruct H as (Hk & Ok & _). exfalso. exact (A k Hk Ok).
Qed.

(** What [startswith] reads of [p ++ x] beyond [p] is a prefix of [x]. *)
Lemma startswith_firstn (sub x : str) :
  startswith x sub = startswith (firstn (length sub) x) sub.
Proof.
  revert x; induction sub as [|c sub IH]; intros [|d x]; simpl; try reflexivity.
  now rewrite <- IH.
Qed.

Lemma startswith_app_agree (sub p x y : str) :
  firstn (length sub - length p) x = firstn (length sub - length p) y ->
  startswith (p ++ x) sub = startswith (p ++ y) sub.
Proof.
  revert sub; induction p as [|c p IH]; intros sub H.
  - simpl in *. rewrite Nat.sub_0_r in H.
    rewrite (startswith_firstn sub x), (startswith_firstn sub y). now rewrite H.
  - destruct sub as [|d sub]; [reflexivity|].
    simpl. f_equal. apply IH. exact H.
Qed.

Lemma startswith_app (sub x y : str) :
  startswith x sub = true -> startswith (x ++ y) sub = true.
Proof.
  rewrite !startswith_spec. intros [Hl Hf]. split.
  - rewrite length_app. lia.
  - rewrite firstn_app. replace (length sub - length x) with 0 by lia.
    simpl. now rewrite app_nil_r.
Qed.

End PyFacts.

(** ** fix_translate_block.py *)

Module FixTranslateBlockFacts.
Import Py Run PyFacts FixTranslateBlock.

(** The three ways the script can run, by what the two searches return. *)
Lemma rewrite_block_found (sm em nb : str) (w : world) (s e : nat) :
  find (file w) sm 0 = Some s ->
  find (file w) em s = Some e ->
  rewrite_block sm em nb w =
  (Returned tt,
   World (firstn s (file w) ++ nb ++ skipn e (file w))
         (console w ++ [lit "translate block rewritten"]) (S (writes w))).
Proof.
  intros Hs He. unfold rewrite_block, bind, read_text, str_index.
  rewrite Hs. unfold ret at 1. rewrite He. reflexivity.
Qed.

Lemma rewrite_block_no_start (sm em nb : str) (w : world) :
  find (file w) sm 0 = None ->
  rewrite_block sm em nb w = (Raised ValueError, w).
Proof.
  intros Hs. unfold rewrite_block, bind, read_text, str_index.
  rewrite Hs. reflexivity.
Qed.

Lemma rewrite_block_no_end (sm em nb : str) (w : world) (s : nat) :
  find (file w) sm 0 = Some s ->
  find (file w) em s = None ->
  rewrite_block sm em nb w = (Raised ValueError, w).
Proof.
  intros Hs He. unfold rewrite_block, bind, read_text, str_index.
  rewrite Hs. unfold ret at 1. rewrite He. reflexivity.
Qed.

(** C1: when the start marker occurs, first at [s], and the end marker
    occurs at or after [s], first at [e], the script ends normally and the
    file then holds the text before [s], the replacement block, and the text
    from [e] on, so that the end marker is kept. *)
Theorem rewrite_block_splices (sm em nb : str) (w : world) (s e : nat) :
  first_occurrence sm (file w) 0 s ->
  first_occurrence em (file w) s e ->
  rewrite_block sm em nb w =
  (Returned tt,
   World (firstn s (file w) ++ nb ++ skipn e (file w))
         (console w ++ [lit "translate block rewritten"]) (S (writes w)))
  /\ occurs_at em (firstn s (file w) ++ nb ++ skipn e (file w))
               (s + length nb).
Proof.
  intros Hs He. split.
  - apply rewrite_block_found; now apply find_Some_iff.
  - destruct Hs as (_ & [Hsb _] & _). destruct He as (Hse & Oe & _).
    apply occurs_at_startswith in Oe. destruct Oe as [Hel Oe].
    apply occurs_at_startswith. split.
    + rewrite !length_app, length_firstn, length_skipn. lia.
    + rewrite app_assoc, skipn_app, skipn_all2.
      * rewrite length_app, length_firstn.
        replace (s + length nb - (Nat.min s (length (file w)) + length nb))
          with 0 by lia.
        exact Oe.
      * rewrite length_app, length_firstn. lia.
Qed.

(** C2: when the start marker is absent, or the end marker is absent at and
    after the first start marker, the script ends in an uncaught
    [ValueError] and the world is the one it started in: nothing was
    written and nothing printed. *)
Theorem rewrite_block_fails_unchanged (sm em nb : str) (w : world) :
  absent_from sm (file w) 0 \/
  (exists s, first_occurrence sm (file w) 0 s /\ absent_from em (file w) s) ->
  rewrite_block sm em nb w = (Raised ValueError, w).
Proof.
  intros [Hs | (s & Hs & He)].
  - apply rewrite_block_no_start. now apply find_None_iff.
  - apply rewrite_block_no_end with (s := s).
    + now apply find_Some_iff.
    + now apply find_None_iff.
Qed.

Lemma rewrite_block_splices_witness :
  let w := World (lit "export function translate() {} export function registerTranslation() {}") [] 0 in
  rewrite_block start_marker end_marker (lit "NEW") w =
  (Returned tt,
   World (firstn 0 (file w) ++ lit "NEW" ++ skipn 31 (file w))
         (console w ++ [lit "translate block rewritten"]) (S (writes w)))
  /\ occurs_at end_marker (firstn 0 (file w) ++ lit "NEW" ++ skipn 31 (file w))
                (0 + length (lit "NEW")).
Proof.
  intros w.
  apply (@rewrite_block_splices start_marker end_marker (lit "NEW") w 0 31);
    apply find_Some_iff; vm_compute; reflexivity.
Defined.

Lemma rewrite_block_fails_unchanged_witness :
  let w := World (lit "export function translate() {}") [] 0 in
  rewrite_block start_marker end_marker new_block w = (Raised ValueError, w).
Proof.
  intros w. apply rewrite_block_fails_unchanged.
  right. exists 0. split.
  - apply find_Some_iff; vm_compute; reflexivity.
  - apply find_None_iff; vm_compute; reflexivity.
Defined.

(** C3, as stated, fails: nothing separates the replacement from the end
    marker, so the scenario does not produce ["A NEW end B"]. *)
Lemma scenario_output_counterexample :
  file (snd (rewrite_block (lit "start") (lit "end") (lit "NEW")
               (World (lit "A start X middle end B") [] 0)))
  <> lit "A NEW end B".
Proof. vm_compute. discriminate. Qed.

(** C3, amended: with start marker ["start"], end marker ["end"] and
    replacement ["NEW"], the input ["A start X middle end B"] is rewritten
    to ["A NEWend B"]: the text before the start marker, the replacement,
    and the text from the end marker on. *)
Theorem scenario_output :
  rewrite_block (lit "start") (lit "end") (lit "NEW")
    (World (lit "A start X middle end B") [] 0) =
  (Returned tt,
   World (lit "A NEWend B") [lit "translate block rewritten"] 1)
  /\ lit "A NEWend B" = lit "A " ++ lit "NEW" ++ lit "end B".
Proof. split; vm_compute; reflexivity. Qed.

End FixTranslateBlockFacts.

(** ** Running fix_translate_block.py twice *)

Module Idempotence.
Import Py Run PyFacts FixTranslateBlock FixTranslateBlockFacts.

Section Splice.

Variables sm em nb : str.

(** The block begins with the start marker. *)
Hypothesis block_starts : startswith nb sm = true.

(** The end marker occurs neither inside the block nor across its end,
    whatever follows the block: the block followed by all but the last
    character of the marker does not contain it. *)
Hypothesis block_clear : find (nb ++ firstn (length em - 1) em) em 0 = None.

Variable text : str.
Variables s e : nat.
Hypothesis start_found : first_occurrence sm text 0 s.
Hypothesis end_found : first_occurrence em text s e.

Let text' : str := firstn s text ++ nb ++ skipn e text.

Lemma s_bound : s <= length text.
Proof. destruct start_found as (_ & [H _] & _). lia. Qed.

Lemma skipn_spliced (j : nat) :
  j <= s -> skipn j text' = skipn j (firstn s text) ++ nb ++ skipn e text.
Proof.
  intros Hj. unfold text'. rewrite skipn_app, length_firstn.
  pose proof s_bound. replace (j - Nat.min s (length text)) with 0 by lia.
  reflexivity.
Qed.

Lemma start_again : first_occurrence sm text' 0 s.
Proof.
  pose proof s_bound as Hs.
  destruct start_found as (_ & Os & Ls).
  apply occurs_at_startswith in Os. destruct Os as [_ Os].
  split; [lia | split].
  - apply occurs_at_startswith. split.
    + unfold text'. rewrite !length_app, length_firstn. lia.
    + rewrite skipn_spliced by lia.
      rewrite skipn_all2 by (rewrite length_firstn; lia).
      simpl. now apply startswith_app.
  - intros j Hj Oj. apply (Ls j Hj).
    apply occurs_at_startswith in Oj. destruct Oj as [_ Oj].
    apply occurs_at_startswith. split; [lia|].
    rewrite skipn_spliced in Oj by lia.
    rewrite <- (firstn_skipn s text) at 1.
    rewrite skipn_app, length_firstn.
    replace (j - Nat.min s (length text)) with 0 by lia. simpl.
    rewrite <- Oj. apply startswith_app_agree.
    apply startswith_spec in Os. destruct Os as [_ Os].
    apply startswith_spec in block_starts. destruct block_starts as [Hb Hf].
    set (m := length sm - length (skipn j (firstn s text))).
    assert (Hm : m <= length sm) by (unfold m; lia).
    rewrite <- (Nat.min_l _ _ Hm).
    rewrite <- !firstn_firstn, Os.
    rewrite firstn_app, Hf.
    replace (length sm - length nb) with 0 by lia.
    simpl. now rewrite app_nil_r.
Qed.

Lemma end_again : first_occurrence em text' s (s + length nb).
Proof.
  pose proof s_bound as Hs.
  destruct end_found as (Hse & Oe & _).
  apply occurs_at_startswith in Oe. destruct Oe as [He Oe].
  assert (Hskip : forall k, k <= length nb ->
            skipn (s + k) text' = skipn k nb ++ skipn e text).
  { intros k Hk. unfold text'. rewrite skipn_app, length_firstn.
    rewrite skipn_all2 by (rewrite length_firstn; lia).
    replace (s + k - Nat.min s (length text)) with k by lia.
    simpl. rewrite skipn_app.
    replace (k - length nb) with 0 by lia. reflexivity. }
  split; [lia | split].
  - apply occurs_at_startswith. split.
    + unfold text'. rewrite !length_app, length_firstn. lia.
    + rewrite Hskip by lia. rewrite skipn_all. exact Oe.
  - intros j Hj Oj.
    apply occurs_at_startswith in Oj. destruct Oj as [_ Oj].
    replace j with (s + (j - s)) in Oj by lia.
    rewrite Hskip in Oj by lia.
    set (k := j - s) in *. assert (Hk : k < length nb) by (unfold k; lia).
    apply find_None_iff in block_clear.
    apply (block_clear k); [lia|].
    apply occurs_at_startswith. split.
    + rewrite length_app. lia.
    + rewrite skipn_app. replace (k - length nb) with 0 by lia. simpl.
      rewrite <- Oj. apply startswith_app_agree.
      apply startswith_spec in Oe. destruct Oe as [Hl Oe].
      set (m := length em - length (skipn k nb)).
      assert (Hm : m <= length em - 1)
        by (unfold m; rewrite length_skipn; lia).
      rewrite (firstn_firstn em), (Nat.min_l _ _ Hm).
      transitivity (firstn m (firstn (length em) (skipn e text))).
      * now rewrite Oe.
      * rewrite firstn_firstn. f_equal. lia.
Qed.

Lemma spliced_again :
  firstn s text' ++ nb ++ skipn (s + length nb) text' = text'.
Proof.
  pose proof s_bound as Hs. unfold text'.
  rewrite firstn_app, length_firstn, firstn_firstn.
  replace (s - Nat.min s (length text)) with 0 by lia.
  rewrite Nat.min_id. simpl. rewrite app_nil_r.
  do 2 f_equal.
  rewrite skipn_app, length_firstn.
  rewrite skipn_all2 by (rewrite length_firstn; lia).
  replace (s + length nb - Nat.min s (length text)) with (length nb) by lia.
  simpl. rewrite skipn_app, skipn_all, Nat.sub_diag. reflexivity.
Qed.

End Splice.

Lemma new_block_starts : startswith new_block start_marker = true.
Proof. vm_compute. reflexivity. Qed.

Lemma new_block_clear :
  find (new_block ++ firstn (length end_marker - 1) end_marker) end_marker 0
  = None.
Proof. vm_compute. reflexivity. Qed.

(** A successful run found both markers. *)
Lemma main_success_inv (w : world) :
  fst (main w) = Returned tt ->
  exists s e, find (file w) start_marker 0 = Some s /\
              find (file w) end_marker s = Some e.
Proof.
  intros H. destruct (find (file w) start_marker 0) as [s|] eqn:Hs.
  - destruct (find (file w) end_marker s) as [e|] eqn:He.
    + now exists s, e.
    + unfold main in H. rewrite (@rewrite_block_no_end _ _ new_block _ _ Hs He) in H.
      discriminate.
  - unfold main in H.
    rewrite (@rewrite_block_no_start _ end_marker new_block _ Hs) in H.
    discriminate.
Qed.

(** C10: whenever the script succeeds, a second run on the file it wrote
    succeeds as well and leaves that file's text as it is: the block begins
    with the start marker and keeps the end marker out, so the same region
    is spliced with the same block. *)
Theorem main_twice (w : world) :
  fst (main w) = Returned tt ->
  fst (main (snd (main w))) = Returned tt /\
  file (snd (main (snd (main w)))) = file (snd (main w)).
Proof.
  intros H. destruct (main_success_inv w H) as (s & e & Hs & He).
  unfold main in *.
  rewrite (@rewrite_block_found _ _ new_block _ _ _ Hs He).
  cbn [snd].
  apply find_Some_iff in Hs, He.
  pose proof (@start_again _ _ new_block_starts _ _ e Hs) as Hs'.
  pose proof (@end_again _ _ _ new_block_clear _ _ _ Hs He) as He'.
  apply find_Some_iff in Hs', He'.
  erewrite rewrite_block_found;
    [| cbn [file]; exact Hs' | cbn [file]; exact He'].
  cbn [fst snd file]. split; [reflexivity|].
  exact (@spliced_again _ new_block _ _ e Hs).
Qed.

Lemma main_twice_witness :
  let w := World (lit "export function translate() {} export function registerTranslation() {}") [] 0 in
  fst (main (snd (main w))) = Returned tt /\
  file (snd (main (snd (main w)))) = file (snd (main w)).
Proof.
  intros w. apply (main_twice w). vm_compute. reflexivity.
Defined.

End Idempotence.

(** ** temp.py *)

Module TempFacts.
Import Py Run PyFacts.

Lemma temp_found (w : world) (s e : nat) :
  find (file w) (lit "export function translate") 0 = Some s ->
  find (file w) (lit "export function registerTranslation") s = Some e ->
  Temp.main w =
  (Returned tt,
   World (file w) (console w ++ [lit "please rewrite manually"]) (writes w)).
Proof.
  intros Hs He. unfold Temp.main, bind, read_text, str_index.
  rewrite Hs. unfold ret at 1. rewrite He. reflexivity.
Qed.

Lemma temp_no_start (w : world) :
  find (file w) (lit "export function translate") 0 = None ->
  Temp.main w = (Raised ValueError, w).
Proof.
  intros Hs. unfold Temp.main, bind, read_text, str_index.
  rewrite Hs. reflexivity.
Qed.

Lemma temp_no_end (w : world) (s : nat) :
  find (file w) (lit "export function translate") 0 = Some s ->
  find (file w) (lit "export function registerTranslation") s = None ->
  Temp.main w = (Raised ValueError, w).
Proof.
  intros Hs He. unfold Temp.main, bind, read_text, str_index.
  rewrite Hs. unfold ret at 1. rewrite He. reflexivity.
Qed.

(** C9, as stated, fails where a marker is missing: the run ends in an
    uncaught [ValueError] and the message is not printed. *)
Lemma main_prints_counterexample :
  let w := World (lit "const x = 1;") [] 0 in
  Temp.main w = (Raised ValueError, w) /\
  Temp.main w <>
  (Returned tt,
   World (file w) (console w ++ [lit "please rewrite manually"]) (writes w)).
Proof.
  intros w. assert (H : Temp.main w = (Raised ValueError, w))
    by (vm_compute; reflexivity).
  split; [exact H | rewrite H; discriminate].
Qed.

(** C9, amended: no run of the draft writes the file.  When both markers
    are found it prints the request for a manual rewrite and does nothing
    else; when one is missing it ends in an uncaught [ValueError] and
    prints nothing. *)
Theorem main_never_writes (w : world) :
  (file (snd (Temp.main w)) = file w /\
   writes (snd (Temp.main w)) = writes w) /\
  ((exists s e,
      first_occurrence (lit "export function translate") (file w) 0 s /\
      first_occurrence (lit "export function registerTranslation") (file w) s e /\
      Temp.main w =
      (Returned tt,
       World (file w) (console w ++ [lit "please rewrite manually"])
             (writes w)))
   \/
   ((absent_from (lit "export function translate") (file w) 0 \/
     exists s,
       first_occurrence (lit "export function translate") (file w) 0 s /\
       absent_from (lit "export function registerTranslation") (file w) s) /\
    Temp.main w = (Raised ValueError, w))).
Proof.
  pose proof (find_spec (file w) (lit "export function translate") 0) as Hs.
  destruct (find (file w) (lit "export function translate") 0)
    as [s|] eqn:Fs.
  - pose proof (find_spec (file w) (lit "export function registerTranslation") s)
      as He.
    destruct (find (file w) (lit "export function registerTranslation") s)
      as [e|] eqn:Fe.
    + rewrite (temp_found _ Fs Fe).
      split; [split; reflexivity|]. left. exists s, e.
      split; [exact Hs | split; [exact He | reflexivity]].
    + rewrite (temp_no_end _ Fs Fe).
      split; [split; reflexivity|]. right. split; [|reflexivity].
      right. now exists s.
  - rewrite (temp_no_start _ Fs).
    split; [split; reflexivity|]. right. split; [|reflexivity]. now left.
Qed.

End TempFacts.

(** ** patch_translate.py *)

Module PatchTranslateFacts.
Import Py Run PyFacts.

Lemma replace_scan_skip (old new text : str) (k : nat) :
  replace_scan old new text k = replace_scan old new (skipn k text) 0.
Proof.
  revert k; induction text as [|c text IH]; intros [|k]; try reflexivity.
  simpl. apply IH.
Qed.

Lemma replace_scan_absent (old new text : str) :
  (forall j, startswith (skipn j text) old = false) ->
  replace_scan old new text 0 = text.
Proof.
  induction text as [|c text IH]; intros H; [reflexivity|].
  cbn [replace_scan]. rewrite (H 0 : startswith (c :: text) old = false).
  f_equal. apply IH. intros j. exact (H (S j)).
Qed.

Lemma replace_scan_first (old new text : str) (k : nat) :
  old <> [] ->
  startswith (skipn k text) old = true ->
  (forall j, j < k -> startswith (skipn j text) old = false) ->
  replace_scan old new text 0 =
  firstn k text ++ new ++ replace_scan old new (skipn (k + length old) text) 0.
Proof.
  intros Hold. revert text; induction k as [|k IH]; intros text Hk Hlt.
  - destruct text as [|c text].
    + destruct old; [congruence | discriminate].
    + simpl in Hk. cbn [replace_scan]. rewrite Hk. simpl firstn.
      rewrite replace_scan_skip. simpl. do 2 f_equal.
      destruct old as [|o old]; [congruence|].
      simpl. now rewrite Nat.sub_0_r.
  - destruct text as [|c text].
    + destruct old; [congruence | discriminate].
    + cbn [replace_scan]. rewrite (Hlt 0 ltac:(lia) : startswith (c :: text) old = false).
      simpl. f_equal. apply IH; [exact Hk|].
      intros j Hj. exact (Hlt (S j) ltac:(lia)).
Qed.

(** [str.replace] replaces every occurrence, leftmost first. *)
Lemma replace_replaces_all (old new : str) :
  old <> [] -> forall text, replaced_all old new text (replace text old new).
Proof.
  intros Hold text.
  assert (E : replace text old new = replace_scan old new text 0)
    by (destruct old; [congruence | reflexivity]).
  rewrite E. clear E.
  remember (length text) as n eqn:Hn. revert text Hn.
  induction n as [n IH] using lt_wf_ind. intros text Hn.
  pose proof (find_spec text old 0) as H.
  destruct (find text old 0) as [i|].
  - pose proof H as (_ & Oi & Li).
    apply occurs_at_startswith in Oi. destruct Oi as [Hi Oi].
    assert (Hb : i + length old <= length text) by (destruct H as (_ & [Hb _] & _); exact Hb).
    rewrite (@replace_scan_first old new text i Hold Oi).
    + apply replaced_first; [exact H|].
      apply (IH (length (skipn (i + length old) text))); [|reflexivity].
      rewrite length_skipn. destruct old; [congruence | simpl in *; lia].
    + intros j Hj. destruct (startswith (skipn j text) old) eqn:E; [|reflexivity].
      exfalso. apply (Li j); [lia|]. apply occurs_at_startswith. split; [lia | exact E].
  - rewrite replace_scan_absent; [now apply replaced_none|].
    intros j. destruct (startswith (skipn j text) old) eqn:E; [|reflexivity].
    exfalso. destruct (Nat.le_gt_cases j (length text)) as [Hj|Hj].
    + apply (H j); [lia|]. apply occurs_at_startswith. now split.
    + rewrite skipn_all2 in E by lia.
      apply (H (length text)); [lia|]. apply occurs_at_startswith.
      split; [lia|]. now rewrite skipn_all.
Qed.

(** The relation determines its result. *)
Lemma replaced_all_unique (old new text out1 out2 : str) :
  replaced_all old new text out1 -> replaced_all old new text out2 ->
  out1 = out2.
Proof.
  intros H1. revert out2.
  induction H1 as [text A | text i out F R IH]; intros out2 H2.
  - destruct H2 as [text _ | text j out' (Hj & Oj & _) _]; [reflexivity|].
    exfalso. exact (A j Hj Oj).
  - destruct H2 as [text A | text j out' F' R'].
    + destruct F as (Hi & Oi & _). exfalso. exact (A i Hi Oi).
    + assert (i = j) by (eapply first_occurrence_unique; eassumption).
      subst j. now rewrite (IH out' R').
Qed.

Lemma contains_spec (text sub : str) :
  contains text sub = true <-> exists i, occurs_at sub text i.
Proof.
  unfold contains. pose proof (find_spec text sub 0) as H.
  destruct (find text sub 0) as [i|].
  - split; [intros _|reflexivity]. exists i. apply H.
  - split; [discriminate|]. intros [i Oi]. exfalso. apply (H i); [lia | exact Oi].
Qed.

Lemma old_not_empty : PatchTranslate.old <> [].
Proof. discriminate. Qed.

(** C7: on every file text the script ends normally, in one of two ways.
    When the old block does not occur it prints "old block not found" and
    the file is not written.  When it occurs, the file is written once with
    the text in which every occurrence of the old block has been replaced by
    the new one, and "replaced" is printed. *)
Theorem main_guarded (w : world) :
  (absent_from PatchTranslate.old (file w) 0 /\
   PatchTranslate.main w =
   (Returned tt,
    World (file w) (console w ++ [lit "old block not found"]) (writes w)))
  \/
  ((exists i, occurs_at PatchTranslate.old (file w) i) /\
   replaced_all PatchTranslate.old PatchTranslate.new (file w)
     (replace (file w) PatchTranslate.old PatchTranslate.new) /\
   PatchTranslate.main w =
   (Returned tt,
    World (replace (file w) PatchTranslate.old PatchTranslate.new)
          (console w ++ [lit "replaced"]) (S (writes w)))).
Proof.
  unfold PatchTranslate.main, PatchTranslate.patch, bind, read_text.
  destruct (contains (file w) PatchTranslate.old) eqn:E.
  - right. split; [now apply contains_spec|].
    split; [apply replace_replaces_all, old_not_empty | reflexivity].
  - left. split; [|reflexivity].
    intros j _ Oj. assert (contains (file w) PatchTranslate.old = true)
      by (apply contains_spec; now exists j).
    congruence.
Qed.

End PatchTranslateFacts.

(** ** fix_vendor.py *)

Module FixVendorFacts.
Import Py Run PyFacts FixVendor.

Lemma str_eqb_eq (a b : str) : str_eqb a b = true <-> a = b.
Proof.
  unfold str_eqb. destruct (list_eq_dec N.eq_dec a b); split;
    congruence || discriminate.
Qed.

Lemma list_index_spec (lines : list str) (x : str) :
  match list_index lines x with
  | Some i => first_line lines x i
  | None => ~ In x lines
  end.
Proof.
  induction lines as [|l lines IH]; simpl.
  - tauto.
  - destruct (str_eqb l x) eqn:E.
    + apply str_eqb_eq in E. subst l. split; [reflexivity | intros k Hk; lia].
    + assert (Hne : l <> x) by (intros ->; now rewrite (proj2 (str_eqb_eq x x)) in E).
      destruct (list_index lines x) as [i|].
      * destruct IH as [Hi Hlt]. split; [exact Hi|].
        intros [|k] Hk; simpl; [congruence | apply Hlt; lia].
      * intros [->|H]; tauto.
Qed.

Lemma first_line_unique (lines : list str) (x : str) (i j : nat) :
  first_line lines x i -> first_line lines x j -> i = j.
Proof.
  intros [Hi Li] [Hj Lj].
  destruct (Nat.lt_trichotomy i j) as [H|[H|H]]; [|exact H|].
  - exfalso. exact (Lj i H Hi).
  - exfalso. exact (Li j H Hj).
Qed.

Lemma list_index_Some_iff (lines : list str) (x : str) (i : nat) :
  list_index lines x = Some i <-> first_line lines x i.
Proof.
  pose proof (list_index_spec lines x) as H. split.
  - intros E. now rewrite E in H.
  - intros F. destruct (list_index lines x) as [k|].
    + f_equal. eapply first_line_unique; eassumption.
    + destruct F as [Hi _]. exfalso. apply H. eapply nth_error_In, Hi.
Qed.

Lemma list_index_None_iff (lines : list str) (x : str) :
  list_index lines x = None <-> ~ In x lines.
Proof.
  pose proof (list_index_spec lines x) as H. split.
  - intros E. now rewrite E in H.
  - intros N. destruct (list_index lines x) as [k|]; [|reflexivity].
    destruct H as [Hk _]. exfalso. apply N. eapply nth_error_In, Hk.
Qed.

(** The two ways the splice can run. *)
Lemma splice_header_found (x : str) (header lines : list str) (i : nat) (w : world) :
  list_index lines x = Some i ->
  splice_header x header lines w = (Returned (header ++ skipn (i + 1) lines), w).
Proof.
  intros H. unfold splice_header, bind, lines_index. rewrite H. reflexivity.
Qed.

Lemma splice_header_missing (x : str) (header lines : list str) (w : world) :
  list_index lines x = None ->
  splice_header x header lines w = (Raised ValueError, w).
Proof.
  intros H. unfold splice_header, bind, lines_index. rewrite H. reflexivity.
Qed.

Lemma vendor_found (w : world) (i : nat) :
  list_index (splitlines (file w)) marker = Some i ->
  main w =
  (Returned tt,
   World (join [10%N] (new_header ++ skipn (i + 1) (splitlines (file w))))
         (console w ++ [lit "rewrote header"]) (S (writes w))).
Proof.
  intros H. unfold main, bind, read_text.
  cbv zeta. rewrite (@splice_header_found _ new_header _ _ w H). reflexivity.
Qed.

Lemma vendor_missing (w : world) :
  list_index (splitlines (file w)) marker = None ->
  main w = (Raised ValueError, w).
Proof.
  intros H. unfold main, bind, read_text.
  cbv zeta. rewrite (@splice_header_missing _ new_header _ w H). reflexivity.
Qed.

(** The header is three import lines and the empty string that follows the
    last line feed of the literal. *)
Lemma new_header_lines :
  new_header =
  [lit "import React, { useEffect, useMemo, useState } from 'react';";
   lit "import * as ImagePicker from 'expo-image-picker';";
   lit "import { Alert, KeyboardAvoidingView, Modal, Platform, ScrollView, StyleSheet, Text, TextInput, TouchableOpacity, View, Image } from 'react-native';";
   []].
Proof. vm_compute. reflexivity. Qed.

(** *** Writing a line list and reading it back *)

Lemma splitlines_acc_line (line rest acc : str) :
  unbroken line ->
  splitlines_acc (line ++ rest) acc false =
  splitlines_acc rest (rev line ++ acc) false.
Proof.
  unfold unbroken. revert acc; induction line as [|c line IH]; intros acc H.
  - reflexivity.
  - simpl in H. apply andb_true_iff in H. destruct H as [Hc H].
    apply negb_true_iff in Hc. simpl. rewrite Hc.
    rewrite IH by exact H. now rewrite <- app_assoc.
Qed.

Lemma splitlines_join (lines : list str) :
  Forall unbroken lines ->
  splitlines (join [10%N] lines) = without_empty_last lines.
Proof.
  induction lines as [|l lines IH]; intros H; [reflexivity|].
  inversion H as [|? ? Hl Hrest]; subst.
  destruct lines as [|l2 lines].
  - unfold splitlines. cbn [join].
    rewrite <- (app_nil_r l) at 1. rewrite splitlines_acc_line by exact Hl.
    rewrite app_nil_r. destruct l as [|c l]; [reflexivity|].
    cbn [splitlines_acc without_empty_last].
    destruct (rev (c :: l)) eqn:E.
    + apply (f_equal (@length _)) in E. rewrite length_rev in E. discriminate.
    + now rewrite <- E, rev_involutive.
  - change (join [10%N] (l :: l2 :: lines))
      with (l ++ 10%N :: join [10%N] (l2 :: lines)).
    unfold splitlines. rewrite splitlines_acc_line by exact Hl.
    rewrite app_nil_r. cbn [splitlines_acc andb].
    change (is_linebreak 10%N) with true. cbv iota.
    change (N.eqb 10 13) with false.
    rewrite rev_involutive.
    change (without_empty_last (l :: l2 :: lines))
      with (l :: without_empty_last (l2 :: lines)).
    f_equal. apply IH. exact Hrest.
Qed.

Lemma splitlines_acc_unbroken (text acc : str) (cr : bool) :
  unbroken (rev acc) -> Forall unbroken (splitlines_acc text acc cr).
Proof.
  revert acc cr; induction text as [|c text IH]; intros acc cr H.
  - simpl. destruct acc; constructor; [exact H | constructor].
  - simpl. destruct (cr && N.eqb c 10).
    + now apply IH.
    + destruct (is_linebreak c) eqn:E.
      * constructor; [exact H | now apply IH].
      * apply IH. unfold unbroken in *. simpl.
        rewrite forallb_app, H. simpl. now rewrite E.
Qed.

Lemma splitlines_unbroken (text : str) : Forall unbroken (splitlines text).
Proof. now apply splitlines_acc_unbroken. Qed.

Lemma new_header_unbroken : Forall unbroken new_header.
Proof. rewrite new_header_lines. repeat constructor. Qed.

(** *** Counting marker lines *)

Lemma line_count_without_empty_last (lines : list str) (x : str) :
  x <> [] -> line_count (without_empty_last lines) x = line_count lines x.
Proof.
  intros Hx. unfold line_count.
  induction lines as [|l lines IH]; [reflexivity|].
  destruct lines as [|l2 lines].
  - destruct l as [|c l]; [|reflexivity].
    cbn [without_empty_last count_occ].
    destruct (str_eq_dec [] x); [congruence | reflexivity].
  - change (without_empty_last (l :: l2 :: lines))
      with (l :: without_empty_last (l2 :: lines)).
    cbn [count_occ]. rewrite IH. reflexivity.
Qed.

Lemma line_count_first (lines : list str) (x : str) (i : nat) :
  first_line lines x i ->
  line_count lines x = S (line_count (skipn (i + 1) lines) x).
Proof.
  unfold line_count. revert lines; induction i as [|i IH]; intros lines [Hi Hlt].
  - destruct lines as [|l lines]; [discriminate|].
    injection Hi as ->. cbn [Nat.add skipn count_occ].
    now destruct (str_eq_dec x x).
  - destruct lines as [|l lines]; [discriminate|].
    assert (l <> x) by (intros ->; exact (Hlt 0 ltac:(lia) eq_refl)).
    cbn [Nat.add skipn count_occ]. destruct (str_eq_dec l x); [congruence|].
    apply IH. split; [exact Hi|].
    intros k Hk. exact (Hlt (S k) ltac:(lia)).
Qed.

Lemma line_count_zero (lines : list str) (x : str) :
  line_count lines x = 0 <-> ~ In x lines.
Proof. unfold line_count. symmetry. apply count_occ_not_In. Qed.

Lemma new_header_no_marker : line_count new_header marker = 0.
Proof. vm_compute. reflexivity. Qed.

Lemma marker_not_empty : marker <> [].
Proof. discriminate. Qed.

(** *** The claims about the header splice *)

(** C4, as stated, fails: with the marker at indices 0 and 2 the splice
    keeps everything after index 0, the second marker line included. *)
Lemma splice_through_second_counterexample :
  let lines := [marker; lit "  View,"; marker; lit "} from 'react-native';"] in
  first_two_lines lines marker 0 2 /\
  forall w,
    splice_header marker new_header lines w =
    (Returned (new_header ++ [lit "  View,"; marker; lit "} from 'react-native';"]), w)
    /\ splice_header marker new_header lines w <>
       (Returned (new_header ++ skipn (2 + 1) lines), w).
Proof.
  intros lines. split.
  - split; [split; [reflexivity | intros k Hk; lia] |].
    split; [lia | split; [reflexivity |]].
    intros k Hk. assert (k = 1) as -> by lia. discriminate.
  - intros w.
    assert (H : splice_header marker new_header lines w =
                (Returned (new_header ++ skipn (0 + 1) lines), w))
      by (apply splice_header_found; reflexivity).
    split; [exact H|]. rewrite H. intros E.
    apply (f_equal (fun r => match fst r with
                             | Returned ls => length ls
                             | Raised _ => 0
                             end)) in E.
    vm_compute in E. discriminate.
Qed.

(** C4, amended: for every line list that contains the marker line, with
    first index [i], the splice returns the header lines followed by
    [lines[i+1:]]: the lines up to and including the first marker line are
    dropped, the lines after it are kept in order, later marker lines
    included.  The script writes these lines joined by line feeds. *)
Theorem splice_through_first (lines : list str) (i : nat) :
  first_line lines marker i ->
  forall w,
    splice_header marker new_header lines w =
    (Returned (new_header ++ skipn (i + 1) lines), w)
    /\ (splitlines (file w) = lines ->
        main w =
        (Returned tt,
         World (join [10%N] (new_header ++ skipn (i + 1) lines))
               (console w ++ [lit "rewrote header"]) (S (writes w)))).
Proof.
  intros H w. apply list_index_Some_iff in H. split.
  - now apply splice_header_found.
  - intros <-. now apply vendor_found.
Qed.

Lemma splice_through_first_witness :
  let w := World (lit "// header
import {
  View,
import {") [] 0 in
  let lines := [lit "// header"; marker; lit "  View,"; marker] in
  splice_header marker new_header lines w =
  (Returned (new_header ++ skipn (1 + 1) lines), w)
  /\ main w =
     (Returned tt,
      World (join [10%N] (new_header ++ skipn (1 + 1) lines))
            (console w ++ [lit "rewrote header"]) (S (writes w))).
Proof.
  intros w lines.
  assert (H : first_line lines marker 1)
    by (apply list_index_Some_iff; vm_compute; reflexivity).
  destruct (@splice_through_first lines 1 H w) as [Hs Hm].
  split; [exact Hs | apply Hm; vm_compute; reflexivity].
Defined.

(** C5, as stated, fails: a file with a single marker line is rewritten,
    and a file without one stops the script with the uncaught [ValueError]
    of [lines.index]. *)
Lemma fewer_than_two_counterexample :
  let w := World (lit "import {
  View,
} from 'react-native';") [] 0 in
  line_count (splitlines (file w)) marker < 2 /\
  fst (main w) = Returned tt /\
  writes (snd (main w)) = 1 /\
  file (snd (main w)) <> file w.
Proof.
  intros w. split; [vm_compute; lia|].
  split; [vm_compute; reflexivity|].
  split; [vm_compute; reflexivity|].
  vm_compute. discriminate.
Qed.

(** C5, amended: a line list with fewer than two marker lines has none or
    one.  With none, the splice ends in the uncaught [ValueError] of
    [lines.index] and the script leaves the world as it was, the file
    unwritten.  With one, at index [i], nothing fails: the splice returns
    the header followed by [lines[i+1:]] and the script writes it. *)
Theorem fewer_than_two (lines : list str) :
  line_count lines marker < 2 ->
  (line_count lines marker = 0 /\
   forall w,
     splice_header marker new_header lines w = (Raised ValueError, w) /\
     (splitlines (file w) = lines -> main w = (Raised ValueError, w)))
  \/
  (line_count lines marker = 1 /\
   exists i, first_line lines marker i /\
   forall w,
     splice_header marker new_header lines w =
     (Returned (new_header ++ skipn (i + 1) lines), w) /\
     (splitlines (file w) = lines ->
      main w =
      (Returned tt,
       World (join [10%N] (new_header ++ skipn (i + 1) lines))
             (console w ++ [lit "rewrote header"]) (S (writes w))))).
Proof.
  intros Hlt. pose proof (list_index_spec lines marker) as H.
  destruct (list_index lines marker) as [i|] eqn:E.
  - right. pose proof (line_count_first H) as Hc.
    split; [lia|]. exists i. split; [exact H|]. intros w. split.
    + now apply splice_header_found.
    + intros <-. now apply vendor_found.
  - left. split; [now apply line_count_zero|]. intros w. split.
    + now apply splice_header_missing.
    + intros <-. now apply vendor_missing.
Qed.

Lemma fewer_than_two_witness :
  (let w := World (lit "const x = 1;") [] 0 in
   main w = (Raised ValueError, w))
  /\
  (let w := World (lit "import {
  View,
} from 'react-native';") [] 0 in
   let lines := [marker; lit "  View,"; lit "} from 'react-native';"] in
   main w =
   (Returned tt,
    World (join [10%N] (new_header ++ skipn (0 + 1) lines))
          (console w ++ [lit "rewrote header"]) (S (writes w)))).
Proof.
  split.
  - intros w.
    assert (Hlt : line_count [lit "const x = 1;"] marker < 2)
      by (vm_compute; lia).
    destruct (@fewer_than_two [lit "const x = 1;"] Hlt)
      as [[_ Hw] | [Hc _]].
    + apply (Hw w). vm_compute. reflexivity.
    + vm_compute in Hc. discriminate.
  - intros w lines.
    assert (Hlt : line_count lines marker < 2) by (vm_compute; lia).
    destruct (@fewer_than_two lines Hlt) as [[Hc _] | (_ & i & Hi & Hw)].
    + vm_compute in Hc. discriminate.
    + assert (H0 : first_line lines marker 0)
        by (apply list_index_Some_iff; vm_compute; reflexivity).
      assert (i = 0) as -> by (eapply first_line_unique; eassumption).
      apply (Hw w). vm_compute. reflexivity.
Defined.

(** C6, as stated, fails: the output of a first run on a file with two
    marker lines has exactly one, and a second run rewrites it again. *)
Lemma rerun_counterexample :
  let w0 := World (lit "import {
import {
  View,
} from 'react-native';") [] 0 in
  let w1 := snd (main w0) in
  fst (main w0) = Returned tt /\
  line_count (splitlines (file w1)) marker = 1 /\
  fst (main w1) = Returned tt /\
  file (snd (main w1)) <> file w1.
Proof.
  intros w0 w1. split; [vm_compute; reflexivity|].
  split; [vm_compute; reflexivity|].
  split; [vm_compute; reflexivity|].
  vm_compute. discriminate.
Qed.

(** C6, amended: on a file whose lines contain the marker exactly once, at
    index [i], a re-run does not fail: it writes the header followed by
    [lines[i+1:]].  The text it writes has no marker line left, so the run
    after that ends in the uncaught [ValueError] and changes nothing. *)
Theorem rerun_once_more (w : world) :
  line_count (splitlines (file w)) marker = 1 ->
  exists i,
    first_line (splitlines (file w)) marker i /\
    main w =
    (Returned tt,
     World (join [10%N] (new_header ++ skipn (i + 1) (splitlines (file w))))
           (console w ++ [lit "rewrote header"]) (S (writes w))) /\
    line_count (splitlines (file (snd (main w)))) marker = 0 /\
    main (snd (main w)) = (Raised ValueError, snd (main w)).
Proof.
  intros Hc. pose proof (list_index_spec (splitlines (file w)) marker) as H.
  destruct (list_index (splitlines (file w)) marker) as [i|] eqn:E.
  - exists i. split; [exact H|]. rewrite (vendor_found _ E).
    split; [reflexivity|]. cbn [snd file].
    assert (Hz : line_count
                   (splitlines
                      (join [10%N]
                         (new_header ++ skipn (i + 1) (splitlines (file w)))))
                   marker = 0).
    { rewrite splitlines_join.
      - rewrite line_count_without_empty_last by exact marker_not_empty.
        unfold line_count. rewrite count_occ_app.
        fold (line_count new_header marker).
        fold (line_count (skipn (i + 1) (splitlines (file w))) marker).
        rewrite new_header_no_marker.
        pose proof (line_count_first H). lia.
      - apply Forall_app. split; [exact new_header_unbroken|].
        apply Forall_forall. intros l Hl.
        pose proof (splitlines_unbroken (file w)) as Hu.
        rewrite Forall_forall in Hu. apply Hu.
        rewrite <- (firstn_skipn (i + 1)). apply in_or_app. now right. }
    split; [exact Hz|].
    apply vendor_missing. cbn [file].
    apply list_index_None_iff, line_count_zero. exact Hz.
  - apply line_count_zero in H. lia.
Qed.

Lemma rerun_once_more_witness :
  let w := World (lit "import {
  View,
} from 'react-native';") [] 0 in
  exists i,
    first_line (splitlines (file w)) marker i /\
    main w =
    (Returned tt,
     World (join [10%N] (new_header ++ skipn (i + 1) (splitlines (file w))))
           (console w ++ [lit "rewrote header"]) (S (writes w))) /\
    line_count (splitlines (file (snd (main w)))) marker = 0 /\
    main (snd (main w)) = (Raised ValueError, snd (main w)).
Proof.
  intros w. apply (rerun_once_more w). vm_compute. reflexivity.
Defined.

End FixVendorFacts.

(** ** fixMojibake *)

Module TranslationsFacts.
Import Translations.
Local Open Scope N_scope.

Lemma hasArabic_spec (decoded : jsstring) :
  hasArabic decoded = true <->
  exists unit, In unit decoded /\ 0x0600 <= unit <= 0x06FF.
Proof.
  unfold hasArabic. rewrite existsb_exists.
  split; intros (u & Hin & H); exists u; (split; [exact Hin|]).
  - apply andb_true_iff in H. destruct H as [H1 H2].
    apply N.leb_le in H1, H2. now split.
  - apply andb_true_iff. split; apply N.leb_le; tauto.
Qed.

Lemma low_byte (unit : N) : N.land unit 0xFF = unit mod 256.
Proof. exact (N.land_ones unit 8). Qed.

Ltac divlia := zify; Z.to_euclidean_division_equations; lia.

Lemma lor_shiftl_low (x y k : N) :
  y < 2 ^ k -> N.lor (N.shiftl x k) y = x * 2 ^ k + y.
Proof.
  intros Hy.
  assert (H0 : N.land (N.shiftl x k) y = 0).
  { apply N.bits_inj_0. intros n. rewrite N.land_spec.
    destruct (N.lt_ge_cases n k) as [Hn|Hn].
    - rewrite N.shiftl_spec_low by exact Hn. reflexivity.
    - replace (N.testbit y n) with false; [apply andb_false_r|].
      symmetry. destruct (N.eq_dec y 0) as [->|Hne]; [apply N.bits_0|].
      apply N.bits_above_log2. apply N.log2_lt_pow2; [lia|].
      apply N.lt_le_trans with (2 ^ k); [exact Hy|].
      apply N.pow_le_mono_r; lia. }
  rewrite <- N.lxor_lor by exact H0.
  rewrite <- N.add_nocarry_lxor by exact H0.
  now rewrite N.shiftl_mul_pow2.
Qed.

Lemma continuation_bits (c b : N) :
  N.lor (N.shiftl c 6) (N.land b 0x3F) = c * 64 + b mod 64.
Proof.
  change 0x3F with (N.ones 6). rewrite N.land_ones.
  rewrite lor_shiftl_low; [reflexivity|]. apply N.mod_lt. discriminate.
Qed.

Lemma leb_true (a b : N) : a <= b -> (a <=? b) = true.
Proof. apply N.leb_le. Qed.

Lemma leb_false (a b : N) : b < a -> (a <=? b) = false.
Proof. apply N.leb_gt. Qed.

Lemma lead_ascii (b : N) : b <= 0x7F -> lead b = ([b], idle).
Proof. intros H. unfold lead. now rewrite (@leb_true b 0x7F). Qed.

Lemma lead_two (b : N) :
  0xC2 <= b <= 0xDF -> lead b = ([], Decoder (b mod 32) 1 0x80 0xBF).
Proof.
  intros H. unfold lead.
  rewrite (@leb_false b 0x7F) by lia.
  rewrite (@leb_true 0xC2 b), (@leb_true b 0xDF) by lia. cbn [andb].
  change 0x1F with (N.ones 5). now rewrite N.land_ones.
Qed.

Lemma lead_three (b : N) :
  0xE0 <= b <= 0xEF ->
  lead b = ([], Decoder (b mod 16) 2
                        (if b =? 0xE0 then 0xA0 else 0x80)
                        (if b =? 0xED then 0x9F else 0xBF)).
Proof.
  intros H. unfold lead.
  rewrite (@leb_false b 0x7F) by lia.
  rewrite (@leb_false b 0xDF), andb_false_r by lia.
  rewrite (@leb_true 0xE0 b), (@leb_true b 0xEF) by lia. cbn [andb].
  change 0x0F with (N.ones 4). now rewrite N.land_ones.
Qed.

Lemma lead_four (b : N) :
  0xF0 <= b <= 0xF4 ->
  lead b = ([], Decoder (b mod 8) 3
                        (if b =? 0xF0 then 0x90 else 0x80)
                        (if b =? 0xF4 then 0x8F else 0xBF)).
Proof.
  intros H. unfold lead.
  rewrite (@leb_false b 0x7F) by lia.
  rewrite (@leb_false b 0xDF), andb_false_r by lia.
  rewrite (@leb_false b 0xEF), andb_false_r by lia.
  rewrite (@leb_true 0xF0 b), (@leb_true b 0xF4) by lia. cbn [andb].
  change 0x07 with (N.ones 3). now rewrite N.land_ones.
Qed.

Lemma decode_lead (b : N) (rest : bytes) :
  utf8_decode idle (b :: rest) =
  fst (lead b) ++ utf8_decode (snd (lead b)) rest.
Proof. cbn [utf8_decode idle bytes_needed]. now destruct (lead b). Qed.

Lemma decode_last (c lo hi b : N) (rest : bytes) :
  lo <= b <= hi ->
  utf8_decode (Decoder c 1 lo hi) (b :: rest) =
  (c * 64 + b mod 64) :: utf8_decode idle rest.
Proof.
  intros H. cbn [utf8_decode bytes_needed lower upper code_point].
  rewrite (@leb_true lo b), (@leb_true b hi) by lia. cbn [andb].
  now rewrite continuation_bits.
Qed.

Lemma decode_more (c : N) (n : nat) (lo hi b : N) (rest : bytes) :
  lo <= b <= hi ->
  utf8_decode (Decoder c (S (S n)) lo hi) (b :: rest) =
  utf8_decode (Decoder (c * 64 + b mod 64) (S n) 0x80 0xBF) rest.
Proof.
  intros H. cbn [utf8_decode bytes_needed lower upper code_point].
  rewrite (@leb_true lo b), (@leb_true b hi) by lia. cbn [andb].
  now rewrite continuation_bits.
Qed.

Lemma decode_encode_one (cp : N) (rest : bytes) :
  is_scalar cp = true ->
  utf8_decode idle (utf8_encode cp ++ rest) = cp :: utf8_decode idle rest.
Proof.
  intros Hs. unfold is_scalar in Hs.
  assert (Hr : cp < 0xD800 \/ 0xE000 <= cp <= 0x10FFFF).
  { apply orb_true_iff in Hs. destruct Hs as [H|H].
    - left. now apply N.ltb_lt.
    - right. apply andb_true_iff in H. destruct H as [H1 H2].
      apply N.leb_le in H1, H2. lia. }
  clear Hs. unfold utf8_encode.
  destruct (N.ltb_spec cp 0x80) as [H1|H1].
  - cbn [app]. rewrite decode_lead, lead_ascii by lia. reflexivity.
  - destruct (N.ltb_spec cp 0x800) as [H2|H2].
    + cbn [app]. rewrite decode_lead, lead_two by divlia. cbn [fst snd app].
      rewrite decode_last by divlia. f_equal. divlia.
    + destruct (N.ltb_spec cp 0x10000) as [H3|H3].
      * cbn [app]. rewrite decode_lead, lead_three by divlia.
        cbn [fst snd app]. rewrite decode_more.
        -- rewrite decode_last by divlia. f_equal. divlia.
        -- destruct (N.eqb_spec (0xE0 + cp / 4096) 0xE0);
             destruct (N.eqb_spec (0xE0 + cp / 4096) 0xED); divlia.
      * cbn [app]. rewrite decode_lead, lead_four by divlia.
        cbn [fst snd app]. rewrite decode_more.
        -- rewrite decode_more by divlia.
           rewrite decode_last by divlia. f_equal. divlia.
        -- destruct (N.eqb_spec (0xF0 + cp / 262144) 0xF0);
             destruct (N.eqb_spec (0xF0 + cp / 262144) 0xF4); divlia.
Qed.

(** The decoder inverts the encoding form on every text. *)
Lemma decode_encode (cps : list N) :
  forallb is_scalar cps = true ->
  utf8_decode idle (flat_map utf8_encode cps) = cps.
Proof.
  induction cps as [|cp cps IH]; intros H; [reflexivity|].
  simpl in H. apply andb_true_iff in H. destruct H as [Hc H].
  cbn [flat_map]. rewrite decode_encode_one by exact Hc.
  now rewrite IH.
Qed.

Lemma utf8_encode_bytes (cp : N) :
  is_scalar cp = true -> Forall (fun b => b < 256) (utf8_encode cp).
Proof.
  intros Hs. unfold is_scalar in Hs.
  assert (Hr : cp <= 0x10FFFF).
  { apply orb_true_iff in Hs. destruct Hs as [H|H].
    - apply N.ltb_lt in H. lia.
    - apply andb_true_iff in H. destruct H as [_ H]. now apply N.leb_le in H. }
  unfold utf8_encode.
  destruct (N.ltb_spec cp 0x80); [repeat constructor; lia|].
  destruct (N.ltb_spec cp 0x800); [repeat constructor; divlia|].
  destruct (N.ltb_spec cp 0x10000); repeat constructor; divlia.
Qed.

Lemma binary_of_encoded (cps : list N) :
  forallb is_scalar cps = true ->
  Buffer_from_binary (flat_map utf8_encode cps) =
  Normal (flat_map utf8_encode cps).
Proof.
  intros H. unfold Buffer_from_binary. f_equal.
  induction cps as [|cp cps IH]; [reflexivity|].
  simpl in H. apply andb_true_iff in H. destruct H as [Hc H].
  cbn [flat_map]. rewrite map_app, IH by exact H. f_equal.
  pose proof (utf8_encode_bytes cp Hc) as Hb.
  induction Hb as [|b bs Hlt _ IHb]; [reflexivity|].
  cbn [map]. rewrite IHb, low_byte. f_equal. now apply N.mod_small.
Qed.

Lemma hasArabic_units (cps : list N) :
  hasArabic (flat_map utf16_units cps) =
  existsb (fun cp => (0x0600 <=? cp) && (cp <=? 0x06FF)) cps.
Proof.
  unfold hasArabic. induction cps as [|cp cps IH]; [reflexivity|].
  cbn [flat_map]. rewrite existsb_app, IH. cbn [existsb]. f_equal.
  unfold utf16_units. destruct (N.ltb_spec cp 0x10000) as [H|H].
  - cbn [existsb]. apply orb_false_r.
  - cbn [existsb]. rewrite orb_false_r.
    rewrite (@leb_false (0xD800 + N.shiftr (cp - 0x10000) 10) 0x06FF) by lia.
    rewrite (@leb_false (0xDC00 + N.land (cp - 0x10000) 0x3FF) 0x06FF) by lia.
    rewrite (@leb_false cp 0x06FF) by lia.
    now rewrite !andb_false_r.
Qed.

(** What the helper is for: a text that was encoded as UTF-8 and whose bytes
    were then read one character each is given back as it was, when it has a
    character of the Arabic block; otherwise the input is returned. *)
Lemma fixMojibake_repairs (cps : list N) :
  forallb is_scalar cps = true ->
  fixMojibake (flat_map utf8_encode cps) =
  if existsb (fun cp => (0x0600 <=? cp) && (cp <=? 0x06FF)) cps
  then flat_map utf16_units cps
  else flat_map utf8_encode cps.
Proof.
  intros H. unfold fixMojibake, try_block.
  rewrite binary_of_encoded by exact H.
  unfold toString_utf8. rewrite decode_encode by exact H.
  rewrite hasArabic_units.
  now destruct (existsb _ cps).
Qed.

(** The [catch] branch is never taken: neither [Buffer] call throws. *)
Lemma try_block_returns (value : jsstring) :
  exists result, try_block value = Normal result.
Proof.
  unfold try_block, Buffer_from_binary, toString_utf8.
  destruct (hasArabic _); eexists; reflexivity.
Qed.

(** Bytes that decode to something else than what they encode are not the
    UTF-8 form of any text. *)
Lemma not_well_formed (buf : bytes) :
  flat_map utf8_encode (utf8_decode idle buf) <> buf ->
  forall cps, forallb is_scalar cps = true -> flat_map utf8_encode cps <> buf.
Proof.
  intros H cps Hs E. apply H. rewrite <- E at 1.
  now rewrite (decode_encode cps Hs).
Qed.

(** C8: the helper does not return its input where the claim says it does.
    The [try] block never throws, so the fallback of the [catch] branch is
    not reached.  A text of Arabic-block characters, all above 255, is cut
    to its low bytes and another text comes back; so does a text whose
    bytes are not well-formed UTF-8, with U+FFFD in it.  The two scenarios
    of the claim hold: U+00D8 U+00A8 gives U+0628 and "hello" gives
    "hello". *)
Theorem fixMojibake_keeps_no_input :
  (forall value, try_block value <> Throw)
  /\ (let value := [0x0633; 0x06DA; 0x06A9; 0x0627] in
      Forall (fun unit => 0xFF < unit) value /\
      Buffer_from_binary value = Normal [0x33; 0xDA; 0xA9; 0x27] /\
      fixMojibake value = [0x0033; 0x06A9; 0x0027] /\
      fixMojibake value <> value)
  /\ (let value := [0x06D8; 0x06A8] in
      Forall (fun unit => 0xFF < unit) value /\
      fixMojibake value = [0x0628] /\
      fixMojibake value <> value)
  /\ (let value := [0xC0; 0x80; 0xD8; 0xA8] in
      Forall (fun unit => unit <= 0xFF) value /\
      (forall cps, forallb is_scalar cps = true ->
                   flat_map utf8_encode cps <> value) /\
      fixMojibake value = [0xFFFD; 0xFFFD; 0x0628] /\
      fixMojibake value <> value)
  /\ fixMojibake [0xD8; 0xA8] = [0x0628]
  /\ fixMojibake (Py.lit "hello") = Py.lit "hello".
Proof.
  split.
  { intros value. destruct (try_block_returns value) as [r ->]. discriminate. }
  split.
  { cbv zeta. split; [repeat constructor|].
    split; [reflexivity|]. split; [reflexivity | discriminate]. }
  split.
  { cbv zeta. split; [repeat constructor|].
    split; [reflexivity | discriminate]. }
  split.
  { cbv zeta. split; [repeat constructor; discriminate|].
    split; [apply not_well_formed; vm_compute; discriminate|].
    split; [reflexivity | discriminate]. }
  split; reflexivity.
Qed.

End TranslationsFacts.

(** * Further properties of the scripts *)

(** ** fix_translate_block.py and its draft *)

Module RewriteFacts.
Import Py Run PyFacts FixTranslateBlock FixTranslateBlockFacts Idempotence.

(** X1: After a successful run the start marker is first found where it was
    first found before, the end marker follows the block at once, and what
    lies between the two markers is the new block and nothing else. *)
Theorem rewritten_region (w : world) :
  fst (main w) = Returned tt ->
  exists s,
    first_occurrence start_marker (file w) 0 s /\
    first_occurrence start_marker (file (snd (main w))) 0 s /\
    first_occurrence end_marker (file (snd (main w))) s (s + length new_block) /\
    slice (file (snd (main w))) s (s + length new_block) = new_block.
Proof.
  intros H. destruct (main_success_inv w H) as (s & e & Hs & He).
  exists s. unfold main.
  rewrite (@rewrite_block_found _ _ new_block _ _ _ Hs He). cbn [snd file].
  apply find_Some_iff in Hs, He.
  split; [exact Hs|].
  split; [exact (@start_again _ _ new_block_starts _ _ e Hs)|].
  split; [exact (@end_again _ _ _ new_block_clear _ _ _ Hs He)|].
  unfold slice. destruct Hs as (_ & [Hb _] & _).
  rewrite skipn_app, length_firstn.
  rewrite skipn_all2 by (rewrite length_firstn; lia).
  replace (s - Nat.min s (length (file w))) with 0 by lia.
  replace (s + length new_block - s) with (length new_block) by lia.
  cbn [app skipn]. rewrite firstn_app, Nat.sub_diag, firstn_all.
  cbn [firstn]. apply app_nil_r.
Qed.

Lemma rewritten_region_witness :
  let w := World (lit "// a export function translate(x) { return x; }
export function registerTranslation() {}") [] 0 in
  exists s,
    first_occurrence start_marker (file w) 0 s /\
    first_occurrence start_marker (file (snd (main w))) 0 s /\
    first_occurrence end_marker (file (snd (main w))) s (s + length new_block) /\
    slice (file (snd (main w))) s (s + length new_block) = new_block.
Proof.
  intros w. apply (rewritten_region w). vm_compute. reflexivity.
Defined.

(** X2: The draft is a dry run of the rewrite: on every file it ends the way the
    rewrite ends, normally or in a [ValueError]; when both fail neither has
    changed anything, and when both succeed the draft has only printed its
    request. *)
Theorem draft_is_dry_run (w : world) :
  fst (Temp.main w) = fst (main w) /\
  ((fst (main w) = Raised ValueError /\
    snd (Temp.main w) = w /\ snd (main w) = w)
   \/
   (fst (main w) = Returned tt /\
    snd (Temp.main w) =
    World (file w) (console w ++ [lit "please rewrite manually"]) (writes w))).
Proof.
  destruct (find (file w) start_marker 0) as [s|] eqn:Hs.
  - destruct (find (file w) end_marker s) as [e|] eqn:He.
    + rewrite (TempFacts.temp_found _ Hs He). unfold main.
      rewrite (@rewrite_block_found _ _ new_block _ _ _ Hs He).
      split; [reflexivity|]. right. split; reflexivity.
    + rewrite (TempFacts.temp_no_end _ Hs He). unfold main.
      rewrite (@rewrite_block_no_end _ _ new_block _ _ Hs He).
      split; [reflexivity|]. left. repeat split.
  - rewrite (TempFacts.temp_no_start _ Hs). unfold main.
    rewrite (@rewrite_block_no_start _ end_marker new_block _ Hs).
    split; [reflexivity|]. left. repeat split.
Qed.

(** A successful run leaves a world on which the next run succeeds and
    writes the same text again. *)
Lemma next_run (w : world) :
  fst (main w) = Returned tt ->
  fst (main (snd (main w))) = Returned tt /\
  file (snd (main (snd (main w)))) = file (snd (main w)) /\
  writes (snd (main (snd (main w)))) = S (writes (snd (main w))).
Proof.
  intros H. destruct (main_success_inv w H) as (s & e & Hs & He).
  unfold main in *.
  rewrite (@rewrite_block_found _ _ new_block _ _ _ Hs He). cbn [snd].
  apply find_Some_iff in Hs, He.
  pose proof (@start_again _ _ new_block_starts _ _ e Hs) as Hs'.
  pose proof (@end_again _ _ _ new_block_clear _ _ _ Hs He) as He'.
  apply find_Some_iff in Hs', He'.
  erewrite rewrite_block_found;
    [| cbn [file]; exact Hs' | cbn [file]; exact He'].
  cbn [fst snd file writes]. split; [reflexivity|]. split; [|reflexivity].
  exact (@spliced_again _ new_block _ _ e Hs).
Qed.

(** X3: Once a run has succeeded, any number of further runs succeed too; each
    writes the file again, and the text stays the one the first run wrote. *)
Theorem further_runs (w : world) (n : nat) :
  fst (main w) = Returned tt ->
  fst (main (rerun main n w)) = Returned tt /\
  file (rerun main (S n) w) = file (snd (main w)) /\
  writes (rerun main (S n) w) = writes w + S n.
Proof.
  revert w; induction n as [|n IH]; intros w H.
  - cbn [rerun]. split; [exact H|]. split; [reflexivity|].
    destruct (main_success_inv w H) as (s & e & Hs & He).
    unfold main. rewrite (@rewrite_block_found _ _ new_block _ _ _ Hs He).
    cbn [snd writes]. lia.
  - destruct (next_run w H) as (H1 & Hf & Hw).
    destruct (IH (snd (main w)) H1) as (Hn & Hfn & Hwn).
    change (rerun main (S (S n)) w) with (rerun main (S n) (snd (main w))).
    change (rerun main (S n) w) with (rerun main n (snd (main w))).
    split; [exact Hn|]. split; [now rewrite Hfn, Hf|].
    rewrite Hwn.
    destruct (main_success_inv w H) as (s & e & Hs & He).
    unfold main. rewrite (@rewrite_block_found _ _ new_block _ _ _ Hs He).
    cbn [snd writes]. lia.
Qed.

Lemma further_runs_witness :
  let w := World (lit "export function translate() {} export function registerTranslation() {}") [] 0 in
  fst (main (rerun main 3 w)) = Returned tt /\
  file (rerun main (S 3) w) = file (snd (main w)) /\
  writes (rerun main (S 3) w) = writes w + S 3.
Proof.
  intros w. apply (@further_runs w 3). vm_compute. reflexivity.
Defined.

End RewriteFacts.

(** ** patch_translate.py *)

Module PatchFacts.
Import Py Run PyFacts PatchTranslateFacts.

Lemma startswith_app_inv (a b s : str) :
  startswith (a ++ b) s = true -> length s <= length a ->
  startswith a s = true.
Proof.
  rewrite !startswith_spec. intros [_ Hf] Hl. split; [exact Hl|].
  rewrite firstn_app in Hf. replace (length s - length a) with 0 in Hf by lia.
  cbn [firstn] in Hf. now rewrite app_nil_r in Hf.
Qed.

Lemma startswith_begins (v x s : str) :
  startswith (v ++ x) s = true -> length v <= length s ->
  startswith s v = true.
Proof.
  rewrite !startswith_spec. intros [_ Hf] Hl. split; [exact Hl|].
  rewrite <- Hf at 1. rewrite firstn_firstn, Nat.min_l by exact Hl.
  rewrite firstn_app, Nat.sub_diag, firstn_all. cbn [firstn].
  apply app_nil_r.
Qed.

Lemma startswith_app_split (q x s : str) :
  startswith (q ++ x) s = true -> length q <= length s ->
  startswith x (skipn (length q) s) = true.
Proof.
  rewrite !startswith_spec. intros [Hb Hf] Hl.
  rewrite length_app in Hb. rewrite length_skipn.
  split; [lia|].
  rewrite <- Hf at 2. rewrite firstn_app, skipn_app.
  rewrite skipn_all2 by (rewrite length_firstn; lia).
  rewrite length_firstn.
  replace (length q - Nat.min (length s) (length q)) with 0 by lia.
  reflexivity.
Qed.

Lemma no_end_begins_spec (a b : str) (m : nat) :
  no_end_begins a b = true -> 0 < m < length a ->
  startswith b (skipn m a) = false.
Proof.
  unfold no_end_begins. rewrite forallb_forall. intros H Hm.
  apply negb_true_iff, H, in_seq. lia.
Qed.

Lemma keeps_out_spec (block sub : str) (k : nat) :
  keeps_out block sub = true -> k < length block ->
  startswith (skipn k block) sub = false /\
  startswith sub (skipn k block) = false.
Proof.
  unfold keeps_out. rewrite forallb_forall. intros H Hk.
  specialize (H k). rewrite andb_true_iff, !negb_true_iff in H.
  apply H, in_seq. lia.
Qed.

Lemma replace_scan_at_first (old new text : str) (i : nat) :
  old <> [] -> first_occurrence old text 0 i ->
  replace_scan old new text 0 =
  firstn i text ++ new ++ replace_scan old new (skipn (i + length old) text) 0.
Proof.
  intros Hold (_ & Oi & Li).
  apply occurs_at_startswith in Oi. destruct Oi as [Hi Oi].
  apply replace_scan_first; [exact Hold | exact Oi |].
  intros j Hj. destruct (startswith (skipn j text) old) eqn:E; [|reflexivity].
  exfalso. apply (Li j); [lia|]. apply occurs_at_startswith. split; [lia | exact E].
Qed.

Section Replaced.

Variables old new : str.
Hypothesis old_not_empty : old <> [].
Hypothesis not_longer : length old <= length new.
Hypothesis ends_apart : no_end_begins old new = true.
Hypothesis kept_out : keeps_out new old = true.

(** Under these conditions no replacement brings the old block back. *)
Lemma replace_scan_clears (text : str) :
  absent_from old (replace_scan old new text 0) 0.
Proof.
  remember (length text) as n eqn:Hn. revert text Hn.
  induction n as [n IH] using lt_wf_ind. intros text Hn.
  pose proof (find_spec text old 0) as H.
  destruct (find text old 0) as [i|].
  - rewrite (replace_scan_at_first new old_not_empty H).
    pose proof H as (_ & Oi & Li). pose proof Oi as [Hb _].
    apply occurs_at_startswith in Oi. destruct Oi as [Hi Oi].
    set (out' := replace_scan old new (skipn (i + length old) text) 0).
    assert (IH' : absent_from old out' 0).
    { apply (IH (length (skipn (i + length old) text))); [|reflexivity].
      rewrite length_skipn. destruct old; [congruence | simpl in *; lia]. }
    intros j _ Oj. apply occurs_at_startswith in Oj. destruct Oj as [Hj Oj].
    rewrite !length_app, length_firstn in Hj.
    destruct (Nat.lt_ge_cases j i) as [Hlt|Hge].
    + (* the occurrence begins before the replaced block *)
      rewrite skipn_app, length_firstn in Oj.
      replace (j - Nat.min i (length text)) with 0 in Oj by lia.
      cbn [skipn] in Oj.
      set (q := skipn j (firstn i text)) in *.
      assert (Hq : length q = i - j)
        by (unfold q; rewrite length_skipn, length_firstn; lia).
      assert (Ht : skipn j text = q ++ skipn i text).
      { rewrite <- (firstn_skipn i text) at 1. rewrite skipn_app, length_firstn.
        replace (j - Nat.min i (length text)) with 0 by lia. reflexivity. }
      destruct (Nat.le_gt_cases (length old) (length q)) as [Hlq|Hlq].
      * apply (Li j); [lia|]. apply occurs_at_startswith. split; [lia|].
        rewrite Ht. apply startswith_app.
        now apply startswith_app_inv in Oj.
      * apply startswith_app_split in Oj; [|lia].
        apply startswith_app_inv in Oj; [|rewrite length_skipn; lia].
        rewrite no_end_begins_spec in Oj; [discriminate | exact ends_apart | lia].
    + destruct (Nat.lt_ge_cases j (i + length new)) as [Hin|Hout].
      * (* the occurrence begins inside the new block *)
        rewrite skipn_app, length_firstn in Oj.
        rewrite skipn_all2 in Oj by (rewrite length_firstn; lia).
        replace (j - Nat.min i (length text)) with (j - i) in Oj by lia.
        cbn [app] in Oj. rewrite skipn_app in Oj.
        replace (j - i - length new) with 0 in Oj by lia. cbn [skipn] in Oj.
        destruct (@keeps_out_spec new old (j - i) kept_out ltac:(lia)) as [K1 K2].
        destruct (Nat.le_gt_cases (length old) (length (skipn (j - i) new)))
          as [Hl|Hl].
        -- apply startswith_app_inv in Oj; [congruence | exact Hl].
        -- apply startswith_begins in Oj; [congruence | lia].
      * (* the occurrence lies after the new block *)
        apply (IH' (j - i - length new)); [lia|].
        apply occurs_at_startswith. split; [lia|].
        rewrite <- Oj. rewrite app_assoc, skipn_app.
        rewrite (@skipn_all2 _ j (firstn i text ++ new))
          by (rewrite length_app, length_firstn; lia).
        rewrite length_app, length_firstn. cbn [app].
        do 2 f_equal. lia.
  - rewrite replace_scan_absent; [exact H|].
    intros j. destruct (startswith (skipn j text) old) eqn:E; [|reflexivity].
    exfalso. destruct (Nat.le_gt_cases j (length text)) as [Hj|Hj].
    + apply (H j); [lia|]. apply occurs_at_startswith. now split.
    + rewrite skipn_all2 in E by lia.
      apply (H (length text)); [lia|]. apply occurs_at_startswith.
      split; [lia|]. now rewrite skipn_all.
Qed.

End Replaced.

Lemma blocks_not_longer :
  length PatchTranslate.old <= length PatchTranslate.new.
Proof. vm_compute. lia. Qed.

Lemma blocks_ends_apart :
  no_end_begins PatchTranslate.old PatchTranslate.new = true.
Proof. vm_compute. reflexivity. Qed.

Lemma blocks_kept_out :
  keeps_out PatchTranslate.new PatchTranslate.old = true.
Proof. vm_compute. reflexivity. Qed.

Lemma replace_of_blocks (text : str) :
  replace text PatchTranslate.old PatchTranslate.new =
  replace_scan PatchTranslate.old PatchTranslate.new text 0.
Proof. reflexivity. Qed.

Lemma main_when_found (w : world) :
  contains (file w) PatchTranslate.old = true ->
  PatchTranslate.main w =
  (Returned tt,
   World (replace (file w) PatchTranslate.old PatchTranslate.new)
         (console w ++ [lit "replaced"]) (S (writes w))).
Proof.
  intros H. unfold PatchTranslate.main, PatchTranslate.patch, bind, read_text.
  rewrite H. reflexivity.
Qed.

Lemma main_when_absent (w : world) :
  contains (file w) PatchTranslate.old = false ->
  PatchTranslate.main w =
  (Returned tt,
   World (file w) (console w ++ [lit "old block not found"]) (writes w)).
Proof.
  intros H. unfold PatchTranslate.main, PatchTranslate.patch, bind, read_text.
  rewrite H. reflexivity.
Qed.

(** X4: Where the old block first occurs at [i], the run leaves the text before
    [i] as it is and the new block then stands at [i]. *)
Theorem new_block_in_place (w : world) (i : nat) :
  first_occurrence PatchTranslate.old (file w) 0 i ->
  firstn i (file (snd (PatchTranslate.main w))) = firstn i (file w) /\
  occurs_at PatchTranslate.new (file (snd (PatchTranslate.main w))) i.
Proof.
  intros H. pose proof H as (_ & Oi & _). pose proof Oi as [Hb _].
  rewrite main_when_found by (apply contains_spec; now exists i).
  cbn [snd file]. rewrite replace_of_blocks.
  rewrite (replace_scan_at_first PatchTranslate.new old_not_empty H).
  split.
  - rewrite firstn_app, length_firstn, firstn_firstn.
    replace (i - Nat.min i (length (file w))) with 0 by lia.
    rewrite Nat.min_id. cbn [firstn]. apply app_nil_r.
  - apply occurs_at_startswith. split.
    + rewrite length_app, length_firstn. lia.
    + rewrite skipn_app, length_firstn.
      rewrite skipn_all2 by (rewrite length_firstn; lia).
      replace (i - Nat.min i (length (file w))) with 0 by lia.
      cbn [app skipn]. apply startswith_app.
      apply startswith_spec. split; [lia | apply firstn_all].
Qed.

Lemma new_block_in_place_witness :
  let w := World (lit "// translations
" ++ PatchTranslate.old ++ lit "export function registerTranslation() {}") [] 0 in
  firstn 16 (file (snd (PatchTranslate.main w))) = firstn 16 (file w) /\
  occurs_at PatchTranslate.new (file (snd (PatchTranslate.main w))) 16.
Proof.
  intros w. apply (@new_block_in_place w 16).
  apply find_Some_iff. vm_compute. reflexivity.
Defined.

(** X5: Whatever the file, a run that follows a run finds no old block: it
    prints "old block not found" and writes nothing.  The new block does
    not contain the old one, and no text around it can complete one. *)
Theorem second_run_finds_nothing (w : world) :
  PatchTranslate.main (snd (PatchTranslate.main w)) =
  (Returned tt,
   World (file (snd (PatchTranslate.main w)))
         (console (snd (PatchTranslate.main w)) ++ [lit "old block not found"])
         (writes (snd (PatchTranslate.main w)))).
Proof.
  apply main_when_absent.
  destruct (contains (file w) PatchTranslate.old) eqn:E.
  - rewrite (main_when_found _ E). cbn [snd file].
    destruct (contains (replace (file w) PatchTranslate.old PatchTranslate.new)
                PatchTranslate.old) eqn:E'; [|reflexivity].
    apply contains_spec in E'. destruct E' as [j Oj]. exfalso.
    rewrite replace_of_blocks in Oj.
    exact (@replace_scan_clears _ _ old_not_empty blocks_not_longer
             blocks_ends_apart blocks_kept_out (file w) j (Nat.le_0_l j) Oj).
  - rewrite (main_when_absent _ E). cbn [snd file]. exact E.
Qed.

End PatchFacts.

(** ** fix_vendor.py *)

Module VendorFacts.
Import Py Run PyFacts FixVendor FixVendorFacts.

Lemma split_acc_not_nil (sep : char) (text acc : str) :
  split_acc sep text acc <> [].
Proof.
  revert acc; induction text as [|c text IH]; intros acc; simpl.
  - discriminate.
  - destruct (N.eqb c sep); [discriminate | apply IH].
Qed.

Lemma join_cons (sep l : str) (rest : list str) :
  rest <> [] -> join sep (l :: rest) = l ++ sep ++ join sep rest.
Proof. destruct rest; [congruence | reflexivity]. Qed.

Lemma join_split_acc (sep : char) (text acc : str) :
  join [sep] (split_acc sep text acc) = rev acc ++ text.
Proof.
  revert acc; induction text as [|c text IH]; intros acc.
  - cbn [split_acc join]. now rewrite app_nil_r.
  - cbn [split_acc]. destruct (N.eqb_spec c sep) as [->|Hne].
    + rewrite join_cons by apply split_acc_not_nil.
      rewrite IH. reflexivity.
    + rewrite IH. cbn [rev]. now rewrite <- app_assoc.
Qed.

Lemma join_app (sep : str) (a b : list str) :
  a <> [] -> b <> [] -> join sep (a ++ b) = join sep a ++ sep ++ join sep b.
Proof.
  intros Ha Hb. induction a as [|l a IH]; [congruence|].
  destruct a as [|l2 a].
  - cbn [app]. rewrite join_cons by exact Hb. reflexivity.
  - change ((l :: l2 :: a) ++ b) with (l :: (l2 :: a) ++ b).
    rewrite join_cons by discriminate.
    rewrite IH by discriminate.
    rewrite (@join_cons sep l (l2 :: a)) by discriminate.
    now rewrite <- !app_assoc.
Qed.

(** X6: Splitting a text at a character and joining the fields with that
    character gives the text back. *)
Theorem join_split (text : str) (sep : char) :
  join [sep] (split text sep) = text.
Proof. unfold split. now rewrite join_split_acc. Qed.

(** The step of a run on a file with at least one marker line. *)
Lemma vendor_step (w : world) (n : nat) :
  line_count (splitlines (file w)) marker = S n ->
  exists i,
    first_line (splitlines (file w)) marker i /\
    main w =
    (Returned tt,
     World (join [10%N] (new_header ++ skipn (i + 1) (splitlines (file w))))
           (console w ++ [lit "rewrote header"]) (S (writes w))) /\
    splitlines (join [10%N] (new_header ++ skipn (i + 1) (splitlines (file w))))
    = without_empty_last (new_header ++ skipn (i + 1) (splitlines (file w))) /\
    line_count (splitlines (file (snd (main w)))) marker = n.
Proof.
  intros Hc. pose proof (list_index_spec (splitlines (file w)) marker) as H.
  destruct (list_index (splitlines (file w)) marker) as [i|] eqn:E.
  - exists i. split; [exact H|]. rewrite (vendor_found _ E).
    split; [reflexivity|]. cbn [snd file].
    assert (Hj : splitlines
                   (join [10%N] (new_header ++ skipn (i + 1) (splitlines (file w))))
                 = without_empty_last
                     (new_header ++ skipn (i + 1) (splitlines (file w)))).
    { apply splitlines_join. apply Forall_app. split; [exact new_header_unbroken|].
      apply Forall_forall. intros l Hl.
      pose proof (splitlines_unbroken (file w)) as Hu.
      rewrite Forall_forall in Hu. apply Hu.
      rewrite <- (firstn_skipn (i + 1)). apply in_or_app. now right. }
    split; [exact Hj|]. rewrite Hj.
    rewrite line_count_without_empty_last by exact marker_not_empty.
    unfold line_count. rewrite count_occ_app.
    fold (line_count new_header marker).
    fold (line_count (skipn (i + 1) (splitlines (file w))) marker).
    rewrite new_header_no_marker.
    pose proof (line_count_first H). lia.
  - apply line_count_zero in H. lia.
Qed.

(** X7: Every run on a file with a marker line succeeds, writes once, and
    leaves a file with exactly one marker line less: the first one goes, with
    all that stood before it. *)
Theorem run_takes_one_marker (w : world) (n : nat) :
  line_count (splitlines (file w)) marker = S n ->
  fst (main w) = Returned tt /\
  writes (snd (main w)) = S (writes w) /\
  line_count (splitlines (file (snd (main w)))) marker = n.
Proof.
  intros H. destruct (vendor_step w H) as (i & _ & Hm & _ & Hc).
  split; [now rewrite Hm|]. split; [now rewrite Hm | exact Hc].
Qed.

Lemma run_takes_one_marker_witness :
  let w := World (lit "import {
import {
  View,
} from 'react-native';") [] 0 in
  fst (main w) = Returned tt /\
  writes (snd (main w)) = S (writes w) /\
  line_count (splitlines (file (snd (main w)))) marker = 1.
Proof.
  intros w. apply (@run_takes_one_marker w 1). vm_compute. reflexivity.
Defined.

(** X8: A file with [n] marker lines takes exactly [n] successful runs: each of
    the first [n] runs succeeds, [n] writes have then been made, no marker
    line is left, and the next run ends in [ValueError] and changes
    nothing. *)
Theorem runs_until_no_marker (n : nat) (w : world) :
  line_count (splitlines (file w)) marker = n ->
  (forall k, k < n -> fst (main (rerun main k w)) = Returned tt) /\
  writes (rerun main n w) = writes w + n /\
  line_count (splitlines (file (rerun main n w))) marker = 0 /\
  main (rerun main n w) = (Raised ValueError, rerun main n w).
Proof.
  revert w; induction n as [|n IH]; intros w H.
  - cbn [rerun]. split; [intros k Hk; lia|]. split; [lia|].
    split; [exact H|]. apply vendor_missing.
    apply list_index_None_iff, line_count_zero. exact H.
  - destruct (vendor_step w H) as (i & _ & Hm & _ & Hc).
    destruct (IH (snd (main w)) Hc) as (Hk & Hw & Hz & Hf).
    cbn [rerun]. split.
    + intros [|k] Hlt; cbn [rerun]; [now rewrite Hm | apply Hk; lia].
    + split; [|split; assumption].
      rewrite Hw, Hm. cbn [snd writes]. lia.
Qed.

Lemma runs_until_no_marker_witness :
  let w := World (lit "import {
import {
  View,
} from 'react-native';") [] 0 in
  (forall k, k < 2 -> fst (main (rerun main k w)) = Returned tt) /\
  writes (rerun main 2 w) = writes w + 2 /\
  line_count (splitlines (file (rerun main 2 w))) marker = 0 /\
  main (rerun main 2 w) = (Raised ValueError, rerun main 2 w).
Proof.
  intros w. apply (@runs_until_no_marker 2 w). vm_compute. reflexivity.
Defined.

Lemma new_header_split : new_header = split header_text 10%N.
Proof. reflexivity. Qed.

(** X9: The file written begins with the header text as the script spells it;
    when lines remain after the marker line, a line feed and those lines
    follow, so that an empty line separates them from the header. *)
Theorem header_written_verbatim (w : world) (i : nat) :
  first_line (splitlines (file w)) marker i ->
  file (snd (main w)) =
  header_text ++
  match skipn (i + 1) (splitlines (file w)) with
  | [] => []
  | _ :: _ => 10%N :: join [10%N] (skipn (i + 1) (splitlines (file w)))
  end
  /\ exists tail, header_text = tail ++ [10%N].
Proof.
  intros H. apply list_index_Some_iff in H. rewrite (vendor_found _ H).
  cbn [snd file]. split.
  - destruct (skipn (i + 1) (splitlines (file w))) as [|l rest].
    + rewrite !app_nil_r, new_header_split. unfold split.
      now rewrite join_split_acc.
    + rewrite join_app; [| rewrite new_header_lines; discriminate | discriminate].
      rewrite new_header_split. unfold split. now rewrite join_split_acc.
  - exists (removelast header_text). vm_compute. reflexivity.
Qed.

Lemma header_written_verbatim_witness :
  let w := World (lit "// header
import {
  View,
} from 'react-native';") [] 0 in
  file (snd (main w)) =
  header_text ++
  match skipn (1 + 1) (splitlines (file w)) with
  | [] => []
  | _ :: _ => 10%N :: join [10%N] (skipn (1 + 1) (splitlines (file w)))
  end
  /\ exists tail, header_text = tail ++ [10%N].
Proof.
  intros w. apply (@header_written_verbatim w 1).
  apply list_index_Some_iff. vm_compute. reflexivity.
Defined.

(** X10: Reading the written file back gives the header lines and the lines that
    followed the marker line, in order; only an empty last line is lost. *)
Theorem written_lines_read_back (w : world) (i : nat) :
  first_line (splitlines (file w)) marker i ->
  splitlines (file (snd (main w))) =
  without_empty_last (new_header ++ skipn (i + 1) (splitlines (file w))).
Proof.
  intros H.
  assert (Hc : line_count (splitlines (file w)) marker =
               S (line_count (skipn (i + 1) (splitlines (file w))) marker))
    by exact (line_count_first H).
  destruct (vendor_step w Hc) as (i' & H' & Hm & Hj & _).
  assert (i' = i) as -> by (eapply first_line_unique; eassumption).
  rewrite Hm. cbn [snd file]. exact Hj.
Qed.

Lemma written_lines_read_back_witness :
  let w := World (lit "// header
import {
  View,
} from 'react-native';") [] 0 in
  splitlines (file (snd (main w))) =
  without_empty_last (new_header ++ skipn (1 + 1) (splitlines (file w))).
Proof.
  intros w. apply (@written_lines_read_back w 1).
  apply list_index_Some_iff. vm_compute. reflexivity.
Defined.

End VendorFacts.

(** ** translate and fixMojibake *)

Module TranslateFacts.
Import Translations TranslationsFacts.
Local Open Scope N_scope.

Lemma idle_calm : calm idle.
Proof. exact I. Qed.

(** A byte that is not an Arabic lead byte, read with nothing pending,
    neither gives an Arabic character nor prepares one. *)
Lemma lead_calm (b : N) :
  arabic_lead b = false ->
  Forall outside_arabic (fst (lead b)) /\ calm (snd (lead b)).
Proof.
  unfold arabic_lead, lead, outside_arabic. intros Hb.
  apply andb_false_iff in Hb.
  assert (Hb' : b < 0xD8 \/ 0xDB < b)
    by (destruct Hb as [H|H]; apply N.leb_gt in H; lia).
  clear Hb.
  destruct (N.leb_spec b 0x7F).
  { split; [repeat constructor; lia | exact I]. }
  destruct (N.leb_spec 0xC2 b); destruct (N.leb_spec b 0xDF); cbn [andb fst snd].
  { split; [constructor|]. unfold calm. cbn [bytes_needed code_point].
    change 0x1F with (N.ones 5). rewrite N.land_ones. divlia. }
  all: destruct (N.leb_spec 0xE0 b); destruct (N.leb_spec b 0xEF);
    cbn [andb fst snd]; try lia.
  all: try (split; [constructor|]; unfold calm;
            cbn [bytes_needed code_point lower upper];
            change 0x0F with (N.ones 4); rewrite N.land_ones;
            intros b2 Hb2; destruct (N.eqb_spec b 0xE0);
            destruct (N.eqb_spec b 0xED); divlia).
  all: destruct (N.leb_spec 0xF0 b); destruct (N.leb_spec b 0xF4);
    cbn [andb fst snd]; try lia.
  all: try (split; [repeat constructor; lia | exact I]).
  all: split; [constructor|]; unfold calm;
    cbn [bytes_needed code_point lower upper];
    change 0x07 with (N.ones 3); rewrite N.land_ones;
    intros b2 Hb2; destruct (N.eqb_spec b 0xF0);
    destruct (N.eqb_spec b 0xF4); divlia.
Qed.

Lemma decode_calm (buf : bytes) :
  Forall (fun b => arabic_lead b = false) buf ->
  forall d, calm d -> Forall outside_arabic (utf8_decode d buf).
Proof.
  induction 1 as [|b buf Hb _ IH]; intros d Hd.
  - cbn [utf8_decode]. destruct (bytes_needed d);
      repeat constructor; unfold outside_arabic; lia.
  - destruct (lead_calm b Hb) as [Hout Hcalm].
    destruct d as [cp needed lo hi]. unfold calm in Hd.
    cbn [utf8_decode bytes_needed lower upper code_point] in *.
    destruct needed as [|n].
    + destruct (lead b) as [out d']. cbn [fst snd] in *.
      apply Forall_app. split; [exact Hout | now apply IH].
    + destruct ((lo <=? b) && (b <=? hi)) eqn:Hr.
      * apply andb_true_iff in Hr. destruct Hr as [H1 H2].
        apply N.leb_le in H1, H2. rewrite continuation_bits.
        destruct n as [|n].
        -- constructor; [unfold outside_arabic; divlia | apply IH, idle_calm].
        -- apply IH. unfold calm. cbn [bytes_needed code_point lower upper].
           destruct n as [|n].
           ++ right. apply Hd. lia.
           ++ specialize (Hd b ltac:(lia)).
              destruct n; intros b2 Hb2; divlia.
      * destruct (lead b) as [out d']. cbn [fst snd] in *.
        constructor; [unfold outside_arabic; lia|].
        apply Forall_app. split; [exact Hout | now apply IH].
Qed.

Lemma plain_bytes (value : jsstring) :
  plain value = true ->
  Forall (fun b => arabic_lead b = false)
         (map (fun unit => N.land unit 0xFF) value).
Proof.
  unfold plain. rewrite forallb_forall. intros H.
  apply Forall_forall. intros b Hin. apply in_map_iff in Hin.
  destruct Hin as (u & <- & Hu). rewrite low_byte.
  apply negb_true_iff. now apply H.
Qed.

Lemma outside_no_arabic (cps : list N) :
  Forall outside_arabic cps ->
  existsb (fun cp => (0x0600 <=? cp) && (cp <=? 0x06FF)) cps = false.
Proof.
  induction 1 as [|cp cps Hcp _ IH]; [reflexivity|].
  cbn [existsb]. rewrite IH, orb_false_r.
  apply andb_false_iff. unfold outside_arabic in Hcp.
  destruct Hcp; [left | right]; apply N.leb_gt; lia.
Qed.

(** On a plain string the [try] block finds nothing Arabic and falls
    through. *)
Lemma try_block_plain (value : jsstring) :
  plain value = true -> try_block value = Normal None.
Proof.
  intros H. unfold try_block, Buffer_from_binary, toString_utf8.
  rewrite hasArabic_units.
  rewrite outside_no_arabic; [reflexivity|].
  apply decode_calm; [now apply plain_bytes | exact idle_calm].
Qed.

(** X11: A string in which no code unit has a low byte in D8..DB comes back
    unchanged: no Arabic character can be decoded from it.  This covers all
    ASCII text. *)
Theorem fixMojibake_plain (value : jsstring) :
  plain value = true -> fixMojibake value = value.
Proof.
  intros H. unfold fixMojibake. now rewrite (try_block_plain value H).
Qed.

Lemma fixMojibake_plain_witness :
  fixMojibake (Py.lit "Total: 250 Rs") = Py.lit "Total: 250 Rs".
Proof. apply (fixMojibake_plain (Py.lit "Total: 250 Rs")). reflexivity. Defined.

Lemma is_language_eq (language : jsstring) (name : String.string) :
  is_language language name = true <-> language = Py.lit name.
Proof. apply FixVendorFacts.str_eqb_eq. Qed.

Lemma english_not_urdu (language : jsstring) :
  is_language language "english" = true ->
  is_language language "urdu" = false.
Proof.
  intros H. apply is_language_eq in H. subst language. reflexivity.
Qed.

(** X12: The installed [translate] is the former one followed, for Urdu only, by
    [fixMojibake]: in every other language it returns what it returned
    before. *)
Theorem translate_after_before (TRANSLATION_DICTIONARY : dictionary)
    (language englishPhrase : jsstring) (fallbackUrdu : option jsstring) :
  translate TRANSLATION_DICTIONARY language englishPhrase fallbackUrdu =
  if is_language language "urdu"
  then fixMojibake
         (translate_before TRANSLATION_DICTIONARY language englishPhrase
            fallbackUrdu)
  else translate_before TRANSLATION_DICTIONARY language englishPhrase
         fallbackUrdu.
Proof.
  unfold translate, translate_before.
  destruct (TRANSLATION_DICTIONARY englishPhrase) as [entry|].
  - destruct (is_language language "english") eqn:E.
    + now rewrite (english_not_urdu _ E).
    + now destruct (is_language language "urdu").
  - now destruct (is_language language "urdu").
Qed.

(** X13: Where the Urdu text that the former [translate] returns for a phrase is
    plain, the installed [translate] returns for that phrase what the former
    one returns, in every language. *)
Theorem translate_plain (TRANSLATION_DICTIONARY : dictionary)
    (language englishPhrase : jsstring) (fallbackUrdu : option jsstring) :
  plain (translate_before TRANSLATION_DICTIONARY (Py.lit "urdu") englishPhrase
           fallbackUrdu) = true ->
  translate TRANSLATION_DICTIONARY language englishPhrase fallbackUrdu =
  translate_before TRANSLATION_DICTIONARY language englishPhrase fallbackUrdu.
Proof.
  unfold translate, translate_before. intros H.
  change (is_language (Py.lit "urdu") "english") with false in H.
  change (is_language (Py.lit "urdu") "urdu") with true in H.
  destruct (TRANSLATION_DICTIONARY englishPhrase) as [entry|];
    cbv iota beta zeta in H.
  - destruct (is_language language "english"); [reflexivity|].
    destruct (is_language language "urdu"); [|reflexivity].
    unfold fixMojibake. now rewrite (try_block_plain _ H).
  - destruct (is_language language "urdu"); [|reflexivity].
    unfold fixMojibake. now rewrite (try_block_plain _ H).
Qed.

Lemma translate_plain_witness :
  let TRANSLATION_DICTIONARY : dictionary :=
    fun phrase =>
      if Py.str_eqb phrase (Py.lit "Save")
      then Some (Py.lit "Save", Py.lit "Mehfooz karein")
      else None in
  translate TRANSLATION_DICTIONARY (Py.lit "urdu") (Py.lit "Save") None =
  translate_before TRANSLATION_DICTIONARY (Py.lit "urdu") (Py.lit "Save") None.
Proof.
  intros TRANSLATION_DICTIONARY.
  apply (@translate_plain TRANSLATION_DICTIONARY (Py.lit "urdu")
           (Py.lit "Save") None).
  reflexivity.
Defined.

(** X14: An Urdu entry stored as mojibake, the UTF-8 bytes of a text with an
    Arabic-block character read one character each, is returned by
    [translate] as that text. *)
Theorem translate_repairs_entry (TRANSLATION_DICTIONARY : dictionary)
    (englishPhrase english : jsstring) (cps : list N)
    (fallbackUrdu : option jsstring) :
  TRANSLATION_DICTIONARY englishPhrase =
    Some (english, flat_map utf8_encode cps) ->
  forallb is_scalar cps = true ->
  existsb (fun cp => (0x0600 <=? cp) && (cp <=? 0x06FF)) cps = true ->
  translate TRANSLATION_DICTIONARY (Py.lit "urdu") englishPhrase fallbackUrdu =
  flat_map utf16_units cps.
Proof.
  intros Hd Hs Ha. unfold translate. rewrite Hd.
  change (is_language (Py.lit "urdu") "english") with false.
  change (is_language (Py.lit "urdu") "urdu") with true.
  cbv iota beta zeta. cbn [snd].
  rewrite (fixMojibake_repairs cps Hs). now rewrite Ha.
Qed.

Lemma translate_repairs_entry_witness :
  let TRANSLATION_DICTIONARY : dictionary :=
    fun phrase =>
      if Py.str_eqb phrase (Py.lit "Save")
      then Some (Py.lit "Save", flat_map utf8_encode [0x0628; 0x0686; 0x062A])
      else None in
  translate TRANSLATION_DICTIONARY (Py.lit "urdu") (Py.lit "Save") None =
  flat_map utf16_units [0x0628; 0x0686; 0x062A].
Proof.
  intros TRANSLATION_DICTIONARY.
  apply (@translate_repairs_entry TRANSLATION_DICTIONARY (Py.lit "Save")
           (Py.lit "Save") [0x0628; 0x0686; 0x062A] None);
    reflexivity.
Defined.

End TranslateFacts.
